(** * The event service of fuwa: sequencing, persistence, fan-out, replay

    A shallow embedding of [server/event_service.go] (the gRPC event
    service), of the [events] table it writes to and of the SQL statements
    it runs against that table, followed by the properties of the event
    core stated against it.  Two users of the service are embedded as
    well: the helpers of [server/config_service.go] that publish
    configuration events, and the event handler of the desktop client
    ([app/client/events.go]), which consumes a subscription.

    Conventions of the embedding:
    - Go [int64] values are integers of [Z]; arithmetic that may overflow
      is wrapped with [wrap64].
    - a Go [map[string]string] is a [gmap string string]; indexing a Go map
      with an absent key gives the empty string ([go_index]).  A nil map
      and an empty map behave alike for every operation the service uses,
      so both are the empty [gmap].
    - a JSON text column holding a string map is represented by the map it
      encodes ([json.Marshal] followed by [json.Unmarshal] is the identity
      on [map[string]string]).
    - the wall clock ([time.Now]) is an argument of the operations that
      read it.
    - the store is the table of [migrations/..._create_events_table.sql]
      and the statements are those of [database/queries/events.sql], from
      which the Go wrappers the service calls are generated.
    - the connection to the store is assumed to work: a statement fails
      only when SQLite refuses it, which the insert does on its primary
      key and the query of GetEvents does on its limit. *)

From Stdlib Require Import ZArith Lia.
From stdpp Require Import base option list sorting strings pretty gmap.

#[local] Open Scope Z_scope.

(** ** Machine integers *)

Definition int64_max : Z := 2 ^ 63 - 1.
Definition int64_min : Z := - 2 ^ 63.

(** The value an [int64] holds after an addition that produced [z]. *)
Definition wrap64 (z : Z) : Z := Z.modulo (z + 2 ^ 63) (2 ^ 64) - 2 ^ 63.

Definition is_int64 (z : Z) : Prop := int64_min <= z <= int64_max.

(** ** Errors *)

(** The status codes of gRPC ([google.golang.org/grpc/codes]). *)
Inductive Code :=
| OK | Canceled | Unknown | InvalidArgument | DeadlineExceeded | NotFound
| AlreadyExists | PermissionDenied | ResourceExhausted | FailedPrecondition
| Aborted | OutOfRange | Unimplemented | Internal | Unavailable | DataLoss
| Unauthenticated.

(** Go [error] values met by the service: a gRPC status, an error of the
    SQL driver, an error of a stream's [Send]. *)
Inductive error :=
| Status (c : Code) (msg : string)
| SqlError (msg : string)
| StreamError (msg : string).

Definition Code_String (c : Code) : string :=
  match c with
  | OK => "OK"
  | Canceled => "Canceled"
  | Unknown => "Unknown"
  | InvalidArgument => "InvalidArgument"
  | DeadlineExceeded => "DeadlineExceeded"
  | NotFound => "NotFound"
  | AlreadyExists => "AlreadyExists"
  | PermissionDenied => "PermissionDenied"
  | ResourceExhausted => "ResourceExhausted"
  | FailedPrecondition => "FailedPrecondition"
  | Aborted => "Aborted"
  | OutOfRange => "OutOfRange"
  | Unimplemented => "Unimplemented"
  | Internal => "Internal"
  | Unavailable => "Unavailable"
  | DataLoss => "DataLoss"
  | Unauthenticated => "Unauthenticated"
  end.

(** [err.Error()], which is what the verb [%v] prints. *)
Definition Error (e : error) : string :=
  match e with
  | Status c msg => "rpc error: code = " +:+ Code_String c +:+ " desc = " +:+ msg
  | SqlError msg => msg
  | StreamError msg => msg
  end.

(** [status.Errorf(c, prefix ": %v", err)] *)
Definition Errorf (c : Code) (prefix : string) (err : error) : error :=
  Status c (prefix +:+ ": " +:+ Error err).

(** A dynamically typed value ([interface{}]) as the SQL driver hands it
    over for an aggregate column. *)
Inductive any :=
| AnyNil
| AnyInt64 (z : Z)
| AnyString (s : string).

(** Go's [m[k]] on a [map[string]string]. *)
Definition go_index (m : gmap string string) (k : string) : string :=
  default EmptyString (m !! k).

(** ** Protocol messages *)

Module pb.

Record Event := mkEvent {
  EventId : string;
  EventType : string;
  Scope : string;
  ActorId : string;
  Timestamp : option Z;            (* seconds since the epoch; None is nil *)
  Payload : option string;         (* the payload, by its JSON rendering *)
  Metadata : gmap string string;
  Sequence : Z
}.

Record PublishRequest := mkPublishRequest {
  PublishRequest_Event : option Event
}.

Record PublishResponse := mkPublishResponse {
  PublishResponse_EventId : string;
  PublishResponse_Sequence : Z;
  PublishResponse_Success : bool
}.

Record GetEventsRequest := mkGetEventsRequest {
  GetEventsRequest_Scope : string;
  GetEventsRequest_EventTypes : list string;
  GetEventsRequest_FromSequence : Z;
  GetEventsRequest_ToSequence : Z;
  GetEventsRequest_Limit : Z
}.

Record GetEventsResponse := mkGetEventsResponse {
  GetEventsResponse_Events : list Event;
  GetEventsResponse_HasMore : bool;
  GetEventsResponse_NextSequence : Z
}.

Record SubscribeRequest := mkSubscribeRequest {
  SubscribeRequest_EventTypes : list string;
  SubscribeRequest_Scopes : list string;
  SubscribeRequest_Filters : gmap string string;
  SubscribeRequest_FromSequence : Z
}.

End pb.

(** ** The store: the [events] table and its statements *)

Module database.

(** A row of [events]. [event_id] is the primary key; the nullable text
    columns are [option]s. *)
Record Event := mkEvent {
  EventID : string;
  EventType : string;
  Scope : string;
  ActorID : string;
  Timestamp : Z;
  Payload : option string;
  Metadata : option (gmap string string);
  Sequence : Z
}.

Record CreateEventParams := mkCreateEventParams {
  c_EventID : string;
  c_EventType : string;
  c_Scope : string;
  c_ActorID : string;
  c_Timestamp : Z;
  c_Payload : option string;
  c_Metadata : option (gmap string string);
  c_Sequence : Z
}.

Record GetEventsParams := mkGetEventsParams {
  q_Scope : string;
  q_EventTypes : list string;
  q_Sequence : Z;
  q_Sequence_2 : Z;
  q_Limit : Z
}.

Definition table := list Event.

Definition row_of (arg : CreateEventParams) : Event :=
  {| EventID := c_EventID arg; EventType := c_EventType arg;
     Scope := c_Scope arg; ActorID := c_ActorID arg;
     Timestamp := c_Timestamp arg; Payload := c_Payload arg;
     Metadata := c_Metadata arg; Sequence := c_Sequence arg |}.

Definition has_event_id (id : string) (tbl : table) : bool :=
  existsb (fun r => String.eqb (EventID r) id) tbl.

(** INSERT INTO events (...) VALUES (...) RETURNING *
    The primary key on [event_id] is the only constraint that can be
    violated: the other columns are NOT NULL and always supplied. *)
Definition CreateEvent (tbl : table) (arg : CreateEventParams)
  : table * (error + Event) :=
  if has_event_id (c_EventID arg) tbl
  then (tbl, inl (SqlError "UNIQUE constraint failed: events.event_id"))
  else (tbl ++ [row_of arg], inr (row_of arg)).

(** MAX(sequence) over the rows of a scope; NULL ([None]) without rows. *)
Fixpoint max_sequence (scope : string) (tbl : table) : option Z :=
  match tbl with
  | [] => None
  | r :: tbl' =>
      if String.eqb (Scope r) scope
      then Some (match max_sequence scope tbl' with
                 | Some m => Z.max (Sequence r) m
                 | None => Sequence r
                 end)
      else max_sequence scope tbl'
  end.

(** SELECT COALESCE(MAX(sequence), 0) FROM events WHERE scope = ? *)
Definition GetLatestSequence (tbl : table) (scope : string) : any :=
  AnyInt64 (default 0 (max_sequence scope tbl)).

(** A value handed to the driver for a placeholder of a statement. *)
Inductive sqlvalue :=
| SqlNull
| SqlInteger (z : Z)
| SqlText (s : string).

(** The arguments the wrapper generated for GetEvents hands to the
    driver, in order: the scope, the event types of the one slice field,
    the two bounds on the sequence, the limit. *)
Definition binds (arg : GetEventsParams) : list sqlvalue :=
  SqlText (q_Scope arg) :: map SqlText (q_EventTypes arg)
  ++ [SqlInteger (q_Sequence arg); SqlInteger (q_Sequence_2 arg);
      SqlInteger (q_Limit arg)].

(** The statement of GetEvents names the slice [event_types] twice, and
    [GetEventsParams] holds it once.  In the wrapper that sqlc generates
    from the statement, the first mention becomes one placeholder for
    each event type (the literal NULL when there is none) and the second
    mention stays a single placeholder.  With [n] event
    types the placeholders of the statement as it is run are, in order:
    [0] the scope, [1..n] the event types, [n+1] the second mention of
    the slice, [n+2] the lower bound, [n+3] the upper bound, [n+4] the
    limit.  The arguments are bound to them in order, and a placeholder
    for which no argument is left holds NULL. *)
Definition placeholder (arg : GetEventsParams) (i : nat) : sqlvalue :=
  default SqlNull (binds arg !! i).

(** [column = v] on a TEXT column: an integer is compared by its text, and
    a comparison with NULL is not true. *)
Definition text_equals (column : string) (v : sqlvalue) : bool :=
  match v with
  | SqlText s => String.eqb column s
  | SqlInteger z => String.eqb column (pretty z)
  | SqlNull => false
  end.

(** [sequence >= v] and [sequence <= v] on the INTEGER column: every
    integer sorts before every text, and a comparison with NULL is not
    true. *)
Definition sequence_at_least (column : Z) (v : sqlvalue) : bool :=
  match v with
  | SqlInteger z => z <=? column
  | SqlText _ => false
  | SqlNull => false
  end.

Definition sequence_at_most (column : Z) (v : sqlvalue) : bool :=
  match v with
  | SqlInteger z => column <=? z
  | SqlText _ => true
  | SqlNull => false
  end.

Definition is_null (v : sqlvalue) : bool :=
  match v with
  | SqlNull => true
  | _ => false
  end.

(** The WHERE clause of GetEvents on the statement as it is run. *)
Definition selected (arg : GetEventsParams) (r : Event) : bool :=
  let n := length (q_EventTypes arg) in
  text_equals (Scope r) (placeholder arg 0)
  && (existsb (text_equals (EventType r)) (map (placeholder arg) (seq 1 n))
      || is_null (placeholder arg (n + 1)%nat))
  && sequence_at_least (Sequence r) (placeholder arg (n + 2)%nat)
  && sequence_at_most (Sequence r) (placeholder arg (n + 3)%nat).

Definition by_sequence : relation Event :=
  fun a b => Sequence a <= Sequence b.

#[global] Instance by_sequence_dec a b : Decision (by_sequence a b) :=
  Z_le_dec (Sequence a) (Sequence b).

(** LIMIT n: a negative n means no limit in SQLite. *)
Definition sql_limit {A} (n : Z) (l : list A) : list A :=
  if n <? 0 then l else take (Z.to_nat n) l.

(** SELECT * FROM events WHERE ... ORDER BY sequence ASC LIMIT ?
    The limit is evaluated before any row is read, and SQLite refuses a
    limit that is not an integer. *)
Definition GetEvents (tbl : table) (arg : GetEventsParams) : error + list Event :=
  match placeholder arg (length (q_EventTypes arg) + 4)%nat with
  | SqlInteger limit =>
      inr (sql_limit limit
             (merge_sort by_sequence (List.filter (selected arg) tbl)))
  | SqlNull | SqlText _ => inl (SqlError "datatype mismatch")
  end.

(** SELECT * FROM events WHERE event_id = ?
    A query for one row answers with [sql.ErrNoRows] when there is none. *)
Definition GetEvent (tbl : table) (event_id : string) : error + Event :=
  match List.find (fun r => String.eqb (EventID r) event_id) tbl with
  | Some r => inr r
  | None => inl (SqlError "sql: no rows in result set")
  end.

Record GetEventsByScopeParams := mkGetEventsByScopeParams {
  s_Scope : string;
  s_Limit : Z;
  s_Offset : Z
}.

Definition newest_first : relation Event :=
  fun a b => Sequence b <= Sequence a.

#[global] Instance newest_first_dec a b : Decision (newest_first a b) :=
  Z_le_dec (Sequence b) (Sequence a).

(** OFFSET n: a negative n counts as 0 in SQLite. *)
Definition sql_offset {A} (n : Z) (l : list A) : list A :=
  drop (Z.to_nat n) l.

(** SELECT * FROM events WHERE scope = ?
    ORDER BY sequence DESC LIMIT ? OFFSET ? *)
Definition GetEventsByScope (tbl : table) (arg : GetEventsByScopeParams) : list Event :=
  sql_limit (s_Limit arg)
    (sql_offset (s_Offset arg)
       (merge_sort newest_first
          (List.filter (fun r => String.eqb (Scope r) (s_Scope arg)) tbl))).

Record GetEventsByTypeAndScopeParams := mkGetEventsByTypeAndScopeParams {
  t_EventType : string;
  t_Scope : string;
  t_Limit : Z
}.

(** SELECT * FROM events WHERE event_type = ? AND scope = ?
    ORDER BY sequence DESC LIMIT ? *)
Definition GetEventsByTypeAndScope (tbl : table) (arg : GetEventsByTypeAndScopeParams)
  : list Event :=
  sql_limit (t_Limit arg)
    (merge_sort newest_first
       (List.filter (fun r => String.eqb (EventType r) (t_EventType arg)
                              && String.eqb (Scope r) (t_Scope arg)) tbl)).

End database.


(** ** The service state *)

(** An entry of the registry.  [stream] is the handle of the subscriber's
    server stream; [done] tells whether the channel of that name has been
    closed. *)
Record eventSubscriber := mkSubscriber {
  eventTypes : list string;
  scopes : list string;
  filters : gmap string string;
  stream : nat;
  done : bool
}.

(** The server side of a subscription stream: the error its [Send] returns
    when the transport is down, and what it has sent so far. *)
Record ServerStream := mkStream {
  send_error : option string;
  sent : list pb.Event
}.

Inductive Stmt := StmtCreateEvent | StmtGetLatestSequence | StmtGetEvents.

(** Everything the service reads and writes: the [events] table, the
    statements run against the store so far (oldest first), the registry
    [s.subscribers], the server streams and the process log. *)
Record World := mkWorld {
  events : database.table;
  journal : list Stmt;
  subscribers : gmap string eventSubscriber;
  streams : gmap nat ServerStream;
  logs : list string
}.

Definition with_store (tbl : database.table) (q : Stmt) (w : World) : World :=
  {| events := tbl; journal := journal w ++ [q];
     subscribers := subscribers w; streams := streams w; logs := logs w |}.

Definition with_subscribers (m : gmap string eventSubscriber) (w : World) : World :=
  {| events := events w; journal := journal w;
     subscribers := m; streams := streams w; logs := logs w |}.

Definition with_streams (m : gmap nat ServerStream) (w : World) : World :=
  {| events := events w; journal := journal w;
     subscribers := subscribers w; streams := m; logs := logs w |}.

(** [log.Printf] *)
Definition log_Printf (line : string) (w : World) : World :=
  {| events := events w; journal := journal w;
     subscribers := subscribers w; streams := streams w;
     logs := logs w ++ [line] |}.

(** *** Calls that may fail *)

(** A Go function with result [(A, error)] that reads and writes the
    world.  What it did before failing stays done. *)
Definition Go (A : Type) : Type := World -> World * (error + A).

Definition ret {A} (a : A) : Go A := fun w => (w, inr a).

Definition fail {A} (e : error) : Go A := fun w => (w, inl e).

Definition bind {A B} (m : Go A) (k : A -> Go B) : Go B :=
  fun w => match m w with
           | (w', inl e) => (w', inl e)
           | (w', inr a) => k a w'
           end.

Declare Scope go_scope.
Delimit Scope go_scope with go.
Notation "'let*' x := m 'in' k" := (bind m (fun x => k))
  (at level 10, x name, m at level 100, k at level 200, only parsing) : go_scope.
#[local] Open Scope go_scope.

Definition db_CreateEvent (arg : database.CreateEventParams) : Go database.Event :=
  fun w => let '(tbl, r) := database.CreateEvent (events w) arg in
           (with_store tbl StmtCreateEvent w, r).

Definition db_GetLatestSequence (scope : string) : Go any :=
  fun w => (with_store (events w) StmtGetLatestSequence w,
            inr (database.GetLatestSequence (events w) scope)).

Definition db_GetEvents (arg : database.GetEventsParams) : Go (list database.Event) :=
  fun w => (with_store (events w) StmtGetEvents w,
            database.GetEvents (events w) arg).

(** [stream.Send(event)]: fails when the transport is down, and otherwise
    hands the event to the client. *)
Definition Send (st : nat) (event : pb.Event) : Go unit :=
  fun w => match streams w !! st with
           | None => (w, inl (StreamError "transport is closing"))
           | Some s =>
               match send_error s with
               | Some msg => (w, inl (StreamError msg))
               | None =>
                   (with_streams
                      (<[st := {| send_error := None; sent := sent s ++ [event] |}]>
                         (streams w)) w,
                    inr tt)
               end
           end.

(** ** The event service *)

(** for _, x := range l { if v == x { found = true; break } } *)
Fixpoint found_in (v : string) (l : list string) : bool :=
  match l with
  | [] => false
  | x :: l' => if String.eqb v x then true else found_in v l'
  end.

(** for key, value := range filters { if metadata[key] != value { return false } } *)
Definition filters_hold (metadata filters : gmap string string) : bool :=
  forallb (fun kv => String.eqb (go_index metadata kv.1) kv.2)
          (map_to_list filters).

Definition eventMatchesSubscriber (event : pb.Event) (subscriber : eventSubscriber) : bool :=
  if (0 <? length (eventTypes subscriber))%nat
     && negb (found_in (pb.EventType event) (eventTypes subscriber))
  then false
  else if (0 <? length (scopes subscriber))%nat
          && negb (found_in (pb.Scope event) (scopes subscriber))
  then false
  else filters_hold (pb.Metadata event) (filters subscriber).

Definition eventMatchesFilters (event : pb.Event) (req : pb.SubscribeRequest) : bool :=
  if (0 <? length (pb.SubscribeRequest_EventTypes req))%nat
     && negb (found_in (pb.EventType event) (pb.SubscribeRequest_EventTypes req))
  then false
  else if (0 <? length (pb.SubscribeRequest_Scopes req))%nat
          && negb (found_in (pb.Scope event) (pb.SubscribeRequest_Scopes req))
  then false
  else filters_hold (pb.Metadata event) (pb.SubscribeRequest_Filters req).

Definition getNextSequence (scope : string) : Go Z :=
  let* latestSeqInterface := db_GetLatestSequence scope in
  let latestSeq := match latestSeqInterface with
                   | AnyInt64 seq => seq
                   | _ => 0
                   end in
  ret (wrap64 (latestSeq + 1)).

(** The payload is not rebuilt from its JSON text, and a row without
    metadata gives a nil map. *)
Definition dbEventToProto (dbEvent : database.Event) : pb.Event :=
  {| pb.EventId := database.EventID dbEvent;
     pb.EventType := database.EventType dbEvent;
     pb.Scope := database.Scope dbEvent;
     pb.ActorId := database.ActorID dbEvent;
     pb.Timestamp := Some (database.Timestamp dbEvent);
     pb.Payload := None;
     pb.Metadata := default ∅ (database.Metadata dbEvent);
     pb.Sequence := database.Sequence dbEvent |}.

(** One turn of the loop of [broadcastEvent], for the registry entry
    [subscriberID -> subscriber]. *)
Definition broadcastTo (event : pb.Event) (w : World)
    (entry : string * eventSubscriber) : World :=
  let '(subscriberID, subscriber) := entry in
  if eventMatchesSubscriber event subscriber then
    if done subscriber then w
    else match Send (stream subscriber) event w with
         | (w', inl err) =>
             log_Printf ("Failed to send event to subscriber " +:+ subscriberID
                         +:+ ": " +:+ Error err) w'
         | (w', inr _) => w'
         end
  else w.

(** The loop of [broadcastEvent], over the registry entries in the order
    in which the iteration happens to visit them. *)
Definition broadcastOver (event : pb.Event)
    (entries : list (string * eventSubscriber)) (w : World) : World :=
  foldl (broadcastTo event) w entries.

(** Runs with the read lock of the registry held.  Go leaves the order of
    a map iteration open; [map_to_list] fixes one. *)
Definition broadcastEvent (event : pb.Event) (w : World) : World :=
  broadcastOver event (map_to_list (subscribers w)) w.

(** Publish, lines 86 to 92: the event is given an identifier and a
    timestamp when it has none.  [now] is the clock, in nanoseconds. *)
Definition with_defaults (now : Z) (event : pb.Event) : pb.Event :=
  {| pb.EventId := if String.eqb (pb.EventId event) EmptyString
                   then "event_" +:+ pretty now
                   else pb.EventId event;
     pb.EventType := pb.EventType event;
     pb.Scope := pb.Scope event;
     pb.ActorId := pb.ActorId event;
     pb.Timestamp := match pb.Timestamp event with
                     | None => Some (now / 1000000000)
                     | Some t => Some t
                     end;
     pb.Payload := pb.Payload event;
     pb.Metadata := pb.Metadata event;
     pb.Sequence := pb.Sequence event |}.

(** Publish, lines 82 to 92. *)
Definition publish_prepare (now : Z) (req : pb.PublishRequest) : error + pb.Event :=
  match pb.PublishRequest_Event req with
  | None => inl (Status InvalidArgument "event is required")
  | Some event => inr (with_defaults now event)
  end.

Definition set_Sequence (seq : Z) (event : pb.Event) : pb.Event :=
  {| pb.EventId := pb.EventId event; pb.EventType := pb.EventType event;
     pb.Scope := pb.Scope event; pb.ActorId := pb.ActorId event;
     pb.Timestamp := pb.Timestamp event; pb.Payload := pb.Payload event;
     pb.Metadata := pb.Metadata event; pb.Sequence := seq |}.

(** Publish, lines 94 to 99: the sequence number is read from the store. *)
Definition publish_sequence (event : pb.Event) : Go pb.Event :=
  fun w => match getNextSequence (pb.Scope event) w with
           | (w', inl err) => (w', inl (Errorf Internal "failed to get next sequence" err))
           | (w', inr nextSequence) => (w', inr (set_Sequence nextSequence event))
           end.

Definition CreateEventParams_of (event : pb.Event) : database.CreateEventParams :=
  let payloadJSON := default EmptyString (pb.Payload event) in
  {| database.c_EventID := pb.EventId event;
     database.c_EventType := pb.EventType event;
     database.c_Scope := pb.Scope event;
     database.c_ActorID := pb.ActorId event;
     database.c_Timestamp := default 0 (pb.Timestamp event);
     database.c_Payload := if String.eqb payloadJSON EmptyString
                           then None else Some payloadJSON;
     database.c_Metadata := if bool_decide (pb.Metadata event = ∅)
                            then None else Some (pb.Metadata event);
     database.c_Sequence := pb.Sequence event |}.

(** Publish, lines 101 to 134: the row is inserted. *)
Definition publish_store (event : pb.Event) : Go unit :=
  fun w => match db_CreateEvent (CreateEventParams_of event) w with
           | (w', inl err) => (w', inl (Errorf Internal "failed to store event" err))
           | (w', inr _) => (w', inr tt)
           end.

(** Publish, lines 136 to 143: the broadcast and the answer. *)
Definition publish_respond (event : pb.Event) : Go pb.PublishResponse :=
  fun w => (broadcastEvent event w,
            inr {| pb.PublishResponse_EventId := pb.EventId event;
                   pb.PublishResponse_Sequence := pb.Sequence event;
                   pb.PublishResponse_Success := true |}).

Definition Publish (now : Z) (req : pb.PublishRequest) : Go pb.PublishResponse :=
  match publish_prepare now req with
  | inl err => fail err
  | inr event =>
      let* event := publish_sequence event in
      let* _ := publish_store event in
      publish_respond event
  end.

Definition GetEvents (req : pb.GetEventsRequest) : Go pb.GetEventsResponse :=
  if String.eqb (pb.GetEventsRequest_Scope req) EmptyString
  then fail (Status InvalidArgument "scope is required")
  else
    let limit := if (0 <? pb.GetEventsRequest_Limit req)
                    && (pb.GetEventsRequest_Limit req <=? 100)
                 then pb.GetEventsRequest_Limit req
                 else 50 in
    let fromSeq := if pb.GetEventsRequest_FromSequence req <? 0
                   then 0
                   else pb.GetEventsRequest_FromSequence req in
    let* toSeq := (if pb.GetEventsRequest_ToSequence req <=? 0
              then fun w =>
                   match db_GetLatestSequence (pb.GetEventsRequest_Scope req) w with
                   | (w', inl err) =>
                       (w', inl (Errorf Internal "failed to get latest sequence" err))
                   | (w', inr latestSeqInterface) =>
                       (w', inr (match latestSeqInterface with
                                 | AnyInt64 seq => seq
                                 | _ => 0
                                 end))
                   end
              else ret (pb.GetEventsRequest_ToSequence req)) in
    let* dbEvents := (fun w =>
                  match db_GetEvents
                          {| database.q_Scope := pb.GetEventsRequest_Scope req;
                             database.q_EventTypes := pb.GetEventsRequest_EventTypes req;
                             database.q_Sequence := fromSeq;
                             database.q_Sequence_2 := toSeq;
                             database.q_Limit := limit |} w with
                  | (w', inl err) =>
                      (w', inl (Errorf Internal "failed to get events" err))
                  | (w', inr dbEvents) => (w', inr dbEvents)
                  end) in
    let events := map dbEventToProto dbEvents in
    let hasMore := Z.of_nat (length events) =? limit in
    let nextSequence :=
      match last events with
      | Some e => if hasMore then wrap64 (pb.Sequence e + 1) else 0
      | None => 0
      end in
    ret {| pb.GetEventsResponse_Events := events;
           pb.GetEventsResponse_HasMore := hasMore;
           pb.GetEventsResponse_NextSequence := nextSequence |}.

(** The inner loop of [sendHistoricalEvents]: the first failing [Send]
    ends the replay. *)
Fixpoint sendMatching (st : nat) (req : pb.SubscribeRequest)
    (events : list pb.Event) : Go unit :=
  match events with
  | [] => ret tt
  | event :: rest =>
      if eventMatchesFilters event req
      then let* _ := Send st event in sendMatching st req rest
      else sendMatching st req rest
  end.

(** The outer loop of [sendHistoricalEvents]. *)
Fixpoint replayScopes (st : nat) (req : pb.SubscribeRequest)
    (scopes : list string) : Go unit :=
  match scopes with
  | [] => ret tt
  | scope :: rest =>
      let* events := GetEvents
                  {| pb.GetEventsRequest_Scope := scope;
                     pb.GetEventsRequest_EventTypes := pb.SubscribeRequest_EventTypes req;
                     pb.GetEventsRequest_FromSequence := pb.SubscribeRequest_FromSequence req;
                     pb.GetEventsRequest_ToSequence := 0;
                     pb.GetEventsRequest_Limit := 100 |} in
      let* _ := sendMatching st req (pb.GetEventsResponse_Events events) in
      replayScopes st req rest
  end.

Definition sendHistoricalEvents (st : nat) (req : pb.SubscribeRequest) : Go unit :=
  if (length (pb.SubscribeRequest_Scopes req) =? 0)%nat
  then ret tt
  else replayScopes st req (pb.SubscribeRequest_Scopes req).

(** The subscriber Subscribe makes of a request and its stream. *)
Definition subscriber_of (req : pb.SubscribeRequest) (st : nat) : eventSubscriber :=
  {| eventTypes := pb.SubscribeRequest_EventTypes req;
     scopes := pb.SubscribeRequest_Scopes req;
     filters := pb.SubscribeRequest_Filters req;
     stream := st;
     done := false |}.

Definition subscriberID_at (now : Z) : string := "subscriber_" +:+ pretty now.

(** Subscribe, lines 43 to 65: the subscriber enters the registry, under
    the write lock. *)
Definition subscribe_register (now : Z) (req : pb.SubscribeRequest) (st : nat)
    (w : World) : World :=
  let subscriberID := subscriberID_at now in
  let subscriber := subscriber_of req st in
  log_Printf ("Client subscribed: " +:+ subscriberID)
    (with_subscribers (<[subscriberID := subscriber]> (subscribers w)) w).

(** The deferred function of Subscribe.  The subscriber it closes [done]
    on has left the registry by then. *)
Definition subscribe_cleanup (subscriberID : string) (w : World) : World :=
  with_subscribers (delete subscriberID (subscribers w)) w.

(** Subscribe, lines 67 to 73. *)
Definition subscribe_replay (req : pb.SubscribeRequest) (st : nat) : Go unit :=
  if pb.SubscribeRequest_FromSequence req =? 0
  then ret tt
  else sendHistoricalEvents st req.

(** Subscribe up to the point where it waits for the client to go away:
    [None] when it reached that point, the error it returned with
    otherwise. *)
Definition Subscribe_open (now : Z) (req : pb.SubscribeRequest) (st : nat)
    (w : World) : World * option error :=
  match subscribe_replay req st (subscribe_register now req st w) with
  | (w', inl err) => (subscribe_cleanup (subscriberID_at now) w', Some err)
  | (w', inr _) => (w', None)
  end.

(** Subscribe from the point where the stream's context is done. *)
Definition Subscribe_close (subscriberID : string) (w : World) : World :=
  subscribe_cleanup subscriberID
    (log_Printf ("Client unsubscribed: " +:+ subscriberID) w).

(** ** Calls running side by side *)

(** A call in progress, by the point it has reached and the local
    variables it holds there.  A Publish call holds the event with the
    sequence number it has read until it inserts the row. *)
Inductive call :=
| PublishCall (now : Z) (req : pb.PublishRequest)
| PublishSequenced (event : pb.Event)
| PublishStored (event : pb.Event)
| PublishReturned (r : error + pb.PublishResponse)
| SubscribeCall (now : Z) (req : pb.SubscribeRequest) (st : nat)
| SubscribeRegistered (now : Z) (req : pb.SubscribeRequest) (st : nat)
| SubscribeWaiting (subscriberID : string)
| SubscribeReturned (r : option error).

(** The next step of a call.  A step of Publish is one statement against
    the store or the broadcast under the registry lock; the steps of
    Subscribe are the registration under the lock, the replay, and the
    departure of the client.  No lock is held from one step to the next,
    so steps of different calls may alternate in any way. *)
Definition call_step (c : call) (w : World) : World * call :=
  match c with
  | PublishCall now req =>
      match publish_prepare now req with
      | inl err => (w, PublishReturned (inl err))
      | inr event =>
          match publish_sequence event w with
          | (w', inl err) => (w', PublishReturned (inl err))
          | (w', inr event') => (w', PublishSequenced event')
          end
      end
  | PublishSequenced event =>
      match publish_store event w with
      | (w', inl err) => (w', PublishReturned (inl err))
      | (w', inr _) => (w', PublishStored event)
      end
  | PublishStored event =>
      let '(w', r) := publish_respond event w in (w', PublishReturned r)
  | PublishReturned _ => (w, c)
  | SubscribeCall now req st =>
      (subscribe_register now req st w, SubscribeRegistered now req st)
  | SubscribeRegistered now req st =>
      match subscribe_replay req st w with
      | (w', inl err) =>
          (subscribe_cleanup (subscriberID_at now) w', SubscribeReturned (Some err))
      | (w', inr _) => (w', SubscribeWaiting (subscriberID_at now))
      end
  | SubscribeWaiting subscriberID =>
      (Subscribe_close subscriberID w, SubscribeReturned None)
  | SubscribeReturned _ => (w, c)
  end.

(** The world together with the calls in progress. *)
Definition config : Type := World * list call.

(** The call at position [i] takes its next step. *)
Definition step_at (cfg : config) (i : nat) : config :=
  match cfg.2 !! i with
  | Some c => let '(w', c') := call_step c cfg.1 in (w', <[i := c']> cfg.2)
  | None => cfg
  end.

(** A schedule names, step after step, the call that moves. *)
Definition run (schedule : list nat) (cfg : config) : config :=
  foldl step_at cfg schedule.

(** Calls to Publish made one after the other. *)
Fixpoint publish_all (calls : list (Z * pb.PublishRequest)) (w : World)
  : World * list (error + pb.PublishResponse) :=
  match calls with
  | [] => (w, [])
  | (now, req) :: rest =>
      let '(w', r) := Publish now req w in
      let '(w'', rs) := publish_all rest w' in
      (w'', r :: rs)
  end.

(** The sequence number a call to Publish was answered with. *)
Definition assigned (r : error + pb.PublishResponse) : option Z :=
  match r with
  | inl _ => None
  | inr resp => Some (pb.PublishResponse_Sequence resp)
  end.

(** ** Vocabulary of the properties *)

(** The rows of a scope. *)
Definition in_scope (scope : string) (tbl : database.table) : list database.Event :=
  List.filter (fun r => String.eqb (database.Scope r) scope) tbl.

(** [m] is the latest sequence of [scope]: the greatest sequence among its
    rows, and 0 when it has none. *)
Definition latest_sequence (scope : string) (tbl : database.table) (m : Z) : Prop :=
  (in_scope scope tbl = [] /\ m = 0)
  \/ ((exists r, r ∈ in_scope scope tbl /\ database.Sequence r = m)
      /\ forall r, r ∈ in_scope scope tbl -> database.Sequence r <= m).

(** The identifier under which Publish stores the event of a request. *)
Definition stored_id (now : Z) (event : pb.Event) : string :=
  pb.EventId (with_defaults now event).

(** The event of a request as Publish stores and broadcasts it in the
    world [w]. *)
Definition published (now : Z) (event : pb.Event) (w : World) : pb.Event :=
  set_Sequence
    (wrap64 (default 0 (database.max_sequence (pb.Scope event) (events w)) + 1))
    (with_defaults now event).

(** The world once a call has read the latest sequence of a scope. *)
Definition after_read (w : World) : World :=
  with_store (events w) StmtGetLatestSequence w.

(** The codes by which gRPC reports a conflict. *)
Definition is_conflict (c : Code) : bool :=
  match c with
  | AlreadyExists | Aborted => true
  | _ => false
  end.

(** ** Sample data *)

Definition a_message (id scope : string) : pb.Event :=
  {| pb.EventId := id; pb.EventType := "message.sent"; pb.Scope := scope;
     pb.ActorId := "user:1"; pb.Timestamp := Some 1700000000;
     pb.Payload := None; pb.Metadata := ∅; pb.Sequence := 0 |}.

Definition a_row (id scope : string) (seq : Z) : database.Event :=
  {| database.EventID := id; database.EventType := "message.sent";
     database.Scope := scope; database.ActorID := "user:1";
     database.Timestamp := 1700000000; database.Payload := None;
     database.Metadata := None; database.Sequence := seq |}.

Definition world_of (tbl : database.table) : World :=
  {| events := tbl; journal := []; subscribers := ∅; streams := ∅; logs := [] |}.

(** A registry with one subscriber to everything, on stream 1. *)
Definition one_listener (tbl : database.table) : World :=
  {| events := tbl; journal := [];
     subscribers := {[ "subscriber_1" := {| eventTypes := []; scopes := [];
                                            filters := ∅; stream := 1%nat;
                                            done := false |} ]};
     streams := {[ 1%nat := {| send_error := None; sent := [] |} ]};
     logs := [] |}.

(** What a stream has sent to its client so far. *)
Definition receives (w : World) (st : nat) : list pb.Event :=
  match streams w !! st with
  | Some s => sent s
  | None => []
  end.

(** The error [Send] answers with on a stream, if any. *)
Definition stream_error (w : World) (st : nat) : option string :=
  match streams w !! st with
  | Some s => send_error s
  | None => Some "transport is closing"
  end.

(** The registry entries whose stream is [st] and to which the broadcast
    of [event] sends. *)
Definition addressed (event : pb.Event) (st : nat)
    (entries : list (string * eventSubscriber)) : list (string * eventSubscriber) :=
  List.filter (fun entry => bool_decide (stream entry.2 = st)
                            && eventMatchesSubscriber event entry.2
                            && negb (done entry.2)) entries.

(** No other subscriber of the registry writes to the stream of [id]. *)
Definition private_stream (w : World) (id : string) (sub : eventSubscriber) : Prop :=
  forall id' sub', subscribers w !! id' = Some sub' ->
                   stream sub' = stream sub -> id' = id.

(** The metadata condition in the words of the specification: every key
    of the filters is present in the metadata, with an equal value. *)
Definition metadata_match_as_stated (metadata filters : gmap string string) : Prop :=
  forall k v, filters !! k = Some v -> metadata !! k = Some v.

(** The condition the code checks: the metadata, indexed the way Go
    indexes a map, agrees with the filters on each of their keys. *)
Definition metadata_match (metadata filters : gmap string string) : Prop :=
  forall k v, filters !! k = Some v -> go_index metadata k = v.

(** A subscriber is marked for removal when it has left the registry or
    its [done] channel is closed: the registry has no other mark. *)
Definition marked_for_removal (w : World) (id : string) : Prop :=
  match subscribers w !! id with
  | None => True
  | Some sub => done sub = true
  end.

(** A subscriber that asks for the key [room] to hold the empty string. *)
Definition blank_filter : eventSubscriber :=
  {| eventTypes := []; scopes := [];
     filters := {[ "room" := EmptyString ]};
     stream := 1%nat; done := false |}.

Definition blank_filter_world : World :=
  {| events := []; journal := [];
     subscribers := {[ "subscriber_1" := blank_filter ]};
     streams := {[ 1%nat := {| send_error := None; sent := [] |} ]};
     logs := [] |}.

Definition everything (st : nat) : eventSubscriber :=
  {| eventTypes := []; scopes := []; filters := ∅; stream := st; done := false |}.

(** Subscriber X on a stream whose transport is down, subscriber Y on a
    working one. *)
Definition dead_and_alive : World :=
  {| events := []; journal := [];
     subscribers := {[ "subscriber_X" := everything 1; "subscriber_Y" := everything 2 ]};
     streams := {[ 1%nat := {| send_error := Some "EOF"; sent := [] |};
                   2%nat := {| send_error := None; sent := [] |} ]};
     logs := [] |}.

(** The rows [seq = first .. first + n - 1] of a scope, in that order. *)
Fixpoint numbered (scope : string) (first : Z) (n : nat) : database.table :=
  match n with
  | O => []
  | S n' => a_row ("e" +:+ pretty first) scope first :: numbered scope (first + 1) n'
  end.

Definition query (scope : string) (from to limit : Z) : pb.GetEventsRequest :=
  {| pb.GetEventsRequest_Scope := scope;
     pb.GetEventsRequest_EventTypes := [];
     pb.GetEventsRequest_FromSequence := from;
     pb.GetEventsRequest_ToSequence := to;
     pb.GetEventsRequest_Limit := limit |}.

(** A working stream and an empty registry over a table. *)
Definition one_stream (tbl : database.table) : World :=
  {| events := tbl; journal := []; subscribers := ∅;
     streams := {[ 1%nat := {| send_error := None; sent := [] |} ]};
     logs := [] |}.

Definition catch_up (scopes : list string) (from : Z) : pb.SubscribeRequest :=
  {| pb.SubscribeRequest_EventTypes := [];
     pb.SubscribeRequest_Scopes := scopes;
     pb.SubscribeRequest_Filters := ∅;
     pb.SubscribeRequest_FromSequence := from |}.

(** The requests of a list of calls, each given by the reading of the
    clock and the event to publish. *)
Definition requests (calls : list (Z * pb.Event)) : list (Z * pb.PublishRequest) :=
  map (fun c => (c.1, {| pb.PublishRequest_Event := Some c.2 |})) calls.

(** Two calls to Publish on the scope [channel:1], about to start. *)
Definition two_publishers : config :=
  (world_of [],
   [PublishCall 1 {| pb.PublishRequest_Event := Some (a_message "e1" "channel:1") |};
    PublishCall 2 {| pb.PublishRequest_Event := Some (a_message "e2" "channel:1") |}]).

(** The sequence numbers the returned calls of a configuration were
    answered with. *)
Definition answers (cfg : config) : list (option Z) :=
  map (fun c => match c with
                | PublishReturned r => assigned r
                | _ => None
                end) cfg.2.

(** A client that reconnects to [channel:1] from sequence 1, where two
    events are stored, while a third is being published. *)
Definition reconnect : config :=
  (one_stream (numbered "channel:1" 1 2),
   [SubscribeCall 7 (catch_up ["channel:1"] 1) 1;
    PublishCall 8 {| pb.PublishRequest_Event := Some (a_message "e3" "channel:1") |}]).

(** What a stream has sent, by identifier and sequence. *)
Definition delivered (w : World) (st : nat) : list (string * Z) :=
  map (fun e => (pb.EventId e, pb.Sequence e)) (receives w st).

(** ** Callers of Publish: the configuration service *)

(** [publishConfigUpdatedEvent] of [server/config_service.go].
    [eventService] tells whether the service has an event service (the
    pointer is not nil); [nanos], [stamp] and [unix] are the three
    readings of the clock, for the identifier, the timestamp (in
    seconds) and the sequence field; [now] is the clock Publish would
    read.  The old and the new value and the description are not used
    by the function. *)
Definition publishConfigUpdatedEvent {ConfigValue : Type} (eventService : bool)
    (nanos stamp unix now : Z) (scope key : string)
    (oldValue newValue : option ConfigValue) (updatedBy description : string)
    (w : World) : World * (string * option error) :=
  if negb eventService then (w, (EmptyString, None))
  else
    let eventId := "config-updated-" +:+ pretty nanos in
    let event := {| pb.EventId := eventId;
                    pb.EventType := "config.updated";
                    pb.Scope := scope;
                    pb.ActorId := updatedBy;
                    pb.Timestamp := Some stamp;
                    pb.Payload := None;
                    pb.Metadata := {[ "config_key" := key ]};
                    pb.Sequence := unix |} in
    match Publish now {| pb.PublishRequest_Event := Some event |} w with
    | (w', inl err) => (w', (eventId, Some err))
    | (w', inr _) => (w', (eventId, None))
    end.

(** [publishConfigDeletedEvent], its twin for deletions. *)
Definition publishConfigDeletedEvent {ConfigValue : Type} (eventService : bool)
    (nanos stamp unix now : Z) (scope key : string)
    (deletedValue : option ConfigValue) (deletedBy reason : string)
    (w : World) : World * (string * option error) :=
  if negb eventService then (w, (EmptyString, None))
  else
    let eventId := "config-deleted-" +:+ pretty nanos in
    let event := {| pb.EventId := eventId;
                    pb.EventType := "config.deleted";
                    pb.Scope := scope;
                    pb.ActorId := deletedBy;
                    pb.Timestamp := Some stamp;
                    pb.Payload := None;
                    pb.Metadata := {[ "config_key" := key ]};
                    pb.Sequence := unix |} in
    match Publish now {| pb.PublishRequest_Event := Some event |} w with
    | (w', inl err) => (w', (eventId, Some err))
    | (w', inr _) => (w', (eventId, None))
    end.

(** ** A consumer of Subscribe: the event handler of the client *)

Module client.

(** The fields of [pb.Message] and of [pb.Channel] the handler fills in;
    it leaves the others at their zero values. *)
Record Message := mkMessage {
  MessageId : string;
  Content : string;
  AuthorId : string
}.

Record Channel := mkChannel {
  ChannelId : string;
  Name : string;
  ServerId : string
}.

(** A buffered Go channel: what waits in it, oldest first, and whether it
    has been closed. *)
Record chan (A : Type) := mkChan {
  buffer : list A;
  closed : bool
}.
Arguments mkChan {A} _ _.
Arguments buffer {A} _.
Arguments closed {A} _.

(** [make(chan T, 100)] *)
Definition capacity : nat := 100.

Definition make_chan {A} : chan A := {| buffer := []; closed := false |}.

(** The outcomes of [select { case c <- x: ... default: ... }]: the send
    proceeds when the buffer has room, the default branch runs when it
    is full, and a send on a closed channel panics. *)
Inductive select_send (A : Type) :=
| Proceeded (c : chan A)
| Default
| SendOnClosed.
Arguments Proceeded {A} _.
Arguments Default {A}.
Arguments SendOnClosed {A}.

Definition try_send {A} (c : chan A) (x : A) : select_send A :=
  if closed c then SendOnClosed
  else if (length (buffer c) <? capacity)%nat
       then Proceeded {| buffer := buffer c ++ [x]; closed := false |}
       else Default.

(** The handler, without its manager and its cancel functions, and with
    the lines it has logged. *)
Record EventHandler := mkEventHandler {
  MessageChan : chan Message;
  ChannelChan : chan Channel;
  logged : list string
}.

Definition NewEventHandler : EventHandler :=
  {| MessageChan := make_chan; ChannelChan := make_chan; logged := [] |}.

(** The request of [EventHandler.Subscribe] for a server. *)
Definition SubscribeRequest_for (serverID : string) : pb.SubscribeRequest :=
  {| pb.SubscribeRequest_EventTypes := ["message.sent"; "channel.created"; "channel.updated"];
     pb.SubscribeRequest_Scopes := ["server:" +:+ serverID];
     pb.SubscribeRequest_Filters := ∅;
     pb.SubscribeRequest_FromSequence := 0 |}.

(** Go's [len] and slices count bytes, as the strings here do. *)
Definition extractServerIdFromScope (scope : string) : string :=
  if (7 <? String.length scope)%nat
     && String.eqb (String.substring 0 7 scope) "server:"
  then String.substring 7 (String.length scope - 7) scope
  else scope.

(** [None] is a panic. *)
Definition handleEvent (e : EventHandler) (event : pb.Event) : option EventHandler :=
  if String.eqb (pb.EventType event) "message.sent" then
    let message := {| MessageId := pb.EventId event;
                      Content := "Event: " +:+ pb.EventType event;
                      AuthorId := pb.ActorId event |} in
    match try_send (MessageChan e) message with
    | Proceeded c =>
        Some {| MessageChan := c; ChannelChan := ChannelChan e; logged := logged e |}
    | Default =>
        Some {| MessageChan := MessageChan e; ChannelChan := ChannelChan e;
                logged := logged e ++ ["Message channel full, dropping message event"] |}
    | SendOnClosed => None
    end
  else if String.eqb (pb.EventType event) "channel.created"
          || String.eqb (pb.EventType event) "channel.updated" then
    let channel := {| ChannelId := pb.EventId event;
                      Name := "Event Channel";
                      ServerId := extractServerIdFromScope (pb.Scope event) |} in
    match try_send (ChannelChan e) channel with
    | Proceeded c =>
        Some {| MessageChan := MessageChan e; ChannelChan := c; logged := logged e |}
    | Default =>
        Some {| MessageChan := MessageChan e; ChannelChan := ChannelChan e;
                logged := logged e ++ ["Channel channel full, dropping channel event"] |}
    | SendOnClosed => None
    end
  else Some e.

(** The loop of the subscription, over the events the stream hands over
    while nobody takes anything out of the channels. *)
Fixpoint handleAll (e : EventHandler) (events : list pb.Event) : option EventHandler :=
  match events with
  | [] => Some e
  | event :: rest =>
      match handleEvent e event with
      | Some e' => handleAll e' rest
      | None => None
      end
  end.

(** The message the handler makes of an event. *)
Definition message_of (event : pb.Event) : Message :=
  {| MessageId := pb.EventId event;
     Content := "Event: " +:+ pb.EventType event;
     AuthorId := pb.ActorId event |}.

Definition is_message (event : pb.Event) : bool :=
  String.eqb (pb.EventType event) "message.sent".

(** The channel the handler makes of an event. *)
Definition channel_of (event : pb.Event) : Channel :=
  {| ChannelId := pb.EventId event;
     Name := "Event Channel";
     ServerId := extractServerIdFromScope (pb.Scope event) |}.

Definition is_channel (event : pb.Event) : bool :=
  String.eqb (pb.EventType event) "channel.created"
  || String.eqb (pb.EventType event) "channel.updated".

(** What a channel holds after [xs] have been offered to it, one after
    the other, while nothing is taken out. *)
Definition offered {A} (c : chan A) (xs : list A) : list A :=
  buffer c ++ take (capacity - length (buffer c)) xs.

End client.

(** ** More vocabulary *)

(** An event as it comes back from the store: without its payload. *)
Definition without_payload (event : pb.Event) : pb.Event :=
  {| pb.EventId := pb.EventId event; pb.EventType := pb.EventType event;
     pb.Scope := pb.Scope event; pb.ActorId := pb.ActorId event;
     pb.Timestamp := pb.Timestamp event; pb.Payload := None;
     pb.Metadata := pb.Metadata event; pb.Sequence := pb.Sequence event |}.


(** A world with two stored events and one listener, and a request. *)
Definition busy_world : World :=
  one_listener [a_row "e1" "channel:1" 1; a_row "e2" "channel:1" 2].

(** A table with rows in two scopes, a working stream 1 and a failing
    stream 2. *)
Definition two_streams : World :=
  {| events := [a_row "e1" "channel:1" 1; a_row "e2" "channel:1" 2;
                a_row "e3" "server:1" 1];
     journal := []; subscribers := ∅;
     streams := {[ 1%nat := {| send_error := None; sent := [] |};
                   2%nat := {| send_error := Some "EOF"; sent := [] |} ]};
     logs := [] |}.

(** A stream after a broadcast has sent it [k] copies of an event: one
    whose transport is down is as before. *)
Definition stream_after (event : pb.Event) (k : nat) (s : ServerStream) : ServerStream :=
  match send_error s with
  | Some _ => s
  | None => {| send_error := None; sent := sent s ++ replicate k event |}
  end.

(** * Properties *)

(** ** Integers and the store *)

Lemma wrap64_id (z : Z) : is_int64 z -> wrap64 z = z.
Proof.
  unfold is_int64, wrap64, int64_min, int64_max. intros H.
  rewrite Z.mod_small; lia.
Qed.

Lemma elem_of_in_scope (scope : string) (tbl : database.table) (r : database.Event) :
  r ∈ in_scope scope tbl <-> r ∈ tbl /\ database.Scope r = scope.
Proof.
  unfold in_scope. rewrite !list_elem_of_In, filter_In, String.eqb_eq. tauto.
Qed.

Lemma max_sequence_None (scope : string) (tbl : database.table) :
  database.max_sequence scope tbl = None <-> in_scope scope tbl = [].
Proof.
  induction tbl as [|r tbl IH]; simpl; [tauto|].
  destruct (String.eqb (database.Scope r) scope); [|exact IH].
  split; discriminate.
Qed.

Lemma max_sequence_Some (scope : string) (tbl : database.table) (m : Z) :
  database.max_sequence scope tbl = Some m ->
  (exists r, r ∈ in_scope scope tbl /\ database.Sequence r = m)
  /\ forall r, r ∈ in_scope scope tbl -> database.Sequence r <= m.
Proof.
  revert m. induction tbl as [|r tbl IH]; simpl; intros m; [discriminate|].
  destruct (String.eqb (database.Scope r) scope) eqn:E; [|apply IH].
  destruct (database.max_sequence scope tbl) as [m'|] eqn:Em.
  - intros [= <-]. destruct (IH m' eq_refl) as [[r' [Hr' Hs]] Hmax].
    split.
    + destruct (Z.max_spec (database.Sequence r) m') as [[_ ->]|[_ ->]].
      * exists r'. split; [by apply list_elem_of_further|done].
      * exists r. split; [apply list_elem_of_here|done].
    + intros x [->|Hx]%elem_of_cons; [lia|]. specialize (Hmax x Hx). lia.
  - intros [= <-]. apply max_sequence_None in Em. rewrite Em. split.
    + exists r. split; [apply list_elem_of_here|done].
    + intros x [->|Hx]%elem_of_cons; [lia|]. by apply elem_of_nil in Hx.
Qed.

(** The statement GetLatestSequence computes the latest sequence. *)
Lemma latest_sequence_max (scope : string) (tbl : database.table) :
  latest_sequence scope tbl (default 0 (database.max_sequence scope tbl)).
Proof.
  destruct (database.max_sequence scope tbl) as [m|] eqn:E; simpl.
  - right. by apply max_sequence_Some.
  - left. by apply max_sequence_None in E.
Qed.

Lemma latest_sequence_unique (scope : string) (tbl : database.table) (m n : Z) :
  latest_sequence scope tbl m -> latest_sequence scope tbl n -> m = n.
Proof.
  intros [[Hm ->]|[[r [Hr <-]] Hm]] [[Hn ->]|[[r' [Hr' <-]] Hn]]; try done.
  - rewrite Hm in Hr'. by apply elem_of_nil in Hr'.
  - rewrite Hn in Hr. by apply elem_of_nil in Hr.
  - specialize (Hm r' Hr'). specialize (Hn r Hr). lia.
Qed.

(** ** Publish, step by step *)

Lemma getNextSequence_eq (scope : string) (w : World) :
  getNextSequence scope w
  = (after_read w,
     inr (wrap64 (default 0 (database.max_sequence scope (events w)) + 1))).
Proof. reflexivity. Qed.

Lemma Publish_missing (now : Z) (req : pb.PublishRequest) (w : World) :
  pb.PublishRequest_Event req = None ->
  Publish now req w = (w, inl (Status InvalidArgument "event is required")).
Proof. intros H. unfold Publish, publish_prepare. by rewrite H. Qed.

Lemma Publish_duplicate (now : Z) (req : pb.PublishRequest) (event : pb.Event) (w : World) :
  pb.PublishRequest_Event req = Some event ->
  database.has_event_id (stored_id now event) (events w) = true ->
  Publish now req w
  = (with_store (events w) StmtCreateEvent (after_read w),
     inl (Status Internal
            "failed to store event: UNIQUE constraint failed: events.event_id")).
Proof.
  intros Hreq Hdup. unfold Publish, publish_prepare. rewrite Hreq.
  unfold bind, publish_sequence. rewrite getNextSequence_eq.
  unfold publish_store, db_CreateEvent, database.CreateEvent. simpl.
  unfold stored_id in Hdup. simpl in Hdup. by rewrite Hdup.
Qed.

Lemma Publish_fresh (now : Z) (req : pb.PublishRequest) (event : pb.Event) (w : World) :
  pb.PublishRequest_Event req = Some event ->
  database.has_event_id (stored_id now event) (events w) = false ->
  Publish now req w
  = (broadcastEvent (published now event w)
       (with_store
          (events w ++ [database.row_of (CreateEventParams_of (published now event w))])
          StmtCreateEvent (after_read w)),
     inr {| pb.PublishResponse_EventId := stored_id now event;
            pb.PublishResponse_Sequence := pb.Sequence (published now event w);
            pb.PublishResponse_Success := true |}).
Proof.
  intros Hreq Hnew. unfold Publish, publish_prepare. rewrite Hreq.
  unfold bind, publish_sequence. rewrite getNextSequence_eq.
  unfold publish_store, db_CreateEvent, database.CreateEvent. simpl.
  unfold stored_id in Hnew. simpl in Hnew. by rewrite Hnew.
Qed.

(** ** The sequencer *)

(** C2.  Run on its own, [getNextSequence] answers the latest sequence of
    the scope plus one, as long as that number is an int64, and leaves the
    table as it is; a scope without rows has latest sequence 0 and gets
    1; and the first event published to such a scope is answered with
    sequence 1. *)
Theorem getNextSequence_latest_plus_one (w : World) (scope : string) (m : Z) :
  latest_sequence scope (events w) m ->
  int64_min <= m < int64_max ->
  (getNextSequence scope w).2 = inr (m + 1)
  /\ events (getNextSequence scope w).1 = events w
  /\ (in_scope scope (events w) = [] ->
      m = 0
      /\ database.GetLatestSequence (events w) scope = AnyInt64 0
      /\ (getNextSequence scope w).2 = inr 1
      /\ forall now req event,
          pb.PublishRequest_Event req = Some event ->
          pb.Scope event = scope ->
          database.has_event_id (stored_id now event) (events w) = false ->
          (Publish now req w).2
          = inr {| pb.PublishResponse_EventId := stored_id now event;
                   pb.PublishResponse_Sequence := 1;
                   pb.PublishResponse_Success := true |}).
Proof.
  intros Hm Hrange.
  pose proof (latest_sequence_unique _ _ _ _ Hm (latest_sequence_max scope (events w))) as ->.
  rewrite getNextSequence_eq. simpl.
  split; [|split; [done|]].
  - f_equal. apply wrap64_id. unfold is_int64, int64_min, int64_max in *. lia.
  - intros Hnone. apply max_sequence_None in Hnone.
    unfold database.GetLatestSequence. rewrite Hnone. simpl.
    repeat split; try done.
    intros now req event Hreq <- Hnew.
    rewrite (Publish_fresh _ _ _ _ Hreq Hnew). simpl. by rewrite Hnone.
Qed.

Lemma getNextSequence_latest_plus_one_witness :
  (getNextSequence "channel:1"
     (world_of [a_row "e1" "channel:1" 1; a_row "e2" "channel:1" 2;
                a_row "e3" "server:1" 7])).2 = inr 3.
Proof.
  refine (proj1 (getNextSequence_latest_plus_one _ "channel:1" 2 _ _)).
  - right. split.
    + exists (a_row "e2" "channel:1" 2). split; [vm_compute; set_solver|reflexivity].
    + intros r Hr. vm_compute in Hr.
      apply elem_of_cons in Hr as [->|Hr]; [vm_compute; discriminate|].
      apply elem_of_cons in Hr as [->|Hr]; [vm_compute; discriminate|].
      by apply elem_of_nil in Hr.
  - unfold int64_min, int64_max. lia.
Defined.

(** ** Rejected calls *)

(** C10.  GetEvents with an empty scope fails with InvalidArgument; the
    world it returns is the world it was given, so no statement was run
    against the store, and no event is returned. *)
Theorem GetEvents_empty_scope (types : list string) (from to limit : Z) (w : World) :
  GetEvents {| pb.GetEventsRequest_Scope := EmptyString;
               pb.GetEventsRequest_EventTypes := types;
               pb.GetEventsRequest_FromSequence := from;
               pb.GetEventsRequest_ToSequence := to;
               pb.GetEventsRequest_Limit := limit |} w
  = (w, inl (Status InvalidArgument "scope is required")).
Proof. reflexivity. Qed.

(** C4, as the code has it.  Publish fails with InvalidArgument exactly
    when the request carries no event; it then says that the event is
    required and returns the world it was given, so nothing was sequenced
    or persisted. *)
Theorem Publish_InvalidArgument (now : Z) (req : pb.PublishRequest) (w : World) :
  (pb.PublishRequest_Event req = None ->
   Publish now req w = (w, inl (Status InvalidArgument "event is required")))
  /\ (forall msg, (Publish now req w).2 = inl (Status InvalidArgument msg) ->
      pb.PublishRequest_Event req = None).
Proof.
  split; [apply Publish_missing|].
  intros msg H. destruct (pb.PublishRequest_Event req) as [event|] eqn:Hreq; [|done].
  destruct (database.has_event_id (stored_id now event) (events w)) eqn:Hid.
  - rewrite (Publish_duplicate _ _ _ _ Hreq Hid) in H. discriminate.
  - rewrite (Publish_fresh _ _ _ _ Hreq Hid) in H. discriminate.
Qed.

Lemma Publish_InvalidArgument_witness :
  Publish 42 {| pb.PublishRequest_Event := None |} (one_listener [])
  = (one_listener [], inl (Status InvalidArgument "event is required")).
Proof.
  apply (proj1 (Publish_InvalidArgument 42 _ (one_listener []))). reflexivity.
Defined.

(** C4 as stated fails: an event whose scope and type are both empty is
    sequenced, stored and answered with success. *)
Lemma Publish_accepts_empty_scope :
  let event := {| pb.EventId := "e1"; pb.EventType := EmptyString;
                  pb.Scope := EmptyString; pb.ActorId := "user:1";
                  pb.Timestamp := Some 1700000000; pb.Payload := None;
                  pb.Metadata := ∅; pb.Sequence := 0 |} in
  let out := Publish 42 {| pb.PublishRequest_Event := Some event |} (world_of []) in
  out.2 = inr {| pb.PublishResponse_EventId := "e1";
                 pb.PublishResponse_Sequence := 1;
                 pb.PublishResponse_Success := true |}
  /\ journal out.1 = [StmtGetLatestSequence; StmtCreateEvent]
  /\ length (events out.1) = 1%nat.
Proof. vm_compute. done. Qed.

(** C3, as the code has it.  Publishing an event whose identifier is
    already stored fails with the status Internal, with the message of a
    failed insert; the table, the registry, the streams and the log are
    left as they were, so nothing was stored and nothing broadcast. *)
Theorem Publish_duplicate_rejected (now : Z) (req : pb.PublishRequest)
    (event : pb.Event) (w : World) :
  pb.PublishRequest_Event req = Some event ->
  database.has_event_id (stored_id now event) (events w) = true ->
  (Publish now req w).2
  = inl (Status Internal
           "failed to store event: UNIQUE constraint failed: events.event_id")
  /\ events (Publish now req w).1 = events w
  /\ subscribers (Publish now req w).1 = subscribers w
  /\ streams (Publish now req w).1 = streams w
  /\ logs (Publish now req w).1 = logs w.
Proof.
  intros Hreq Hdup. by rewrite (Publish_duplicate _ _ _ _ Hreq Hdup).
Qed.

Lemma Publish_duplicate_rejected_witness :
  (Publish 42 {| pb.PublishRequest_Event := Some (a_message "e1" "channel:1") |}
     (one_listener [a_row "e1" "channel:1" 1])).2
  = inl (Status Internal
           "failed to store event: UNIQUE constraint failed: events.event_id").
Proof.
  refine (proj1 (Publish_duplicate_rejected 42 _ (a_message "e1" "channel:1")
                   (one_listener [a_row "e1" "channel:1" 1]) _ _));
    reflexivity.
Defined.

(** C3 as stated fails on the kind of error: the duplicate is answered
    with the code Internal, which is not one of the conflict codes. *)
Lemma Publish_duplicate_not_conflict :
  exists c msg,
    (Publish 42 {| pb.PublishRequest_Event := Some (a_message "e1" "channel:1") |}
       (one_listener [a_row "e1" "channel:1" 1])).2 = inl (Status c msg)
    /\ c = Internal /\ is_conflict c = false.
Proof. exists Internal. eexists. vm_compute. done. Qed.

(** ** Filters *)

Lemma found_in_spec (v : string) (l : list string) :
  found_in v l = true <-> v ∈ l.
Proof.
  induction l as [|x l IH]; simpl.
  - split; [discriminate|]. intros H. by apply elem_of_nil in H.
  - rewrite elem_of_cons. destruct (String.eqb_spec v x) as [->|Hne].
    + split; auto.
    + rewrite IH. split; [auto|]. intros [?|?]; [contradiction|done].
Qed.

Lemma filters_hold_spec (metadata filters : gmap string string) :
  filters_hold metadata filters = true <-> metadata_match metadata filters.
Proof.
  unfold filters_hold, metadata_match. rewrite forallb_forall. split.
  - intros H k v Hkv. apply elem_of_map_to_list, list_elem_of_In in Hkv.
    specialize (H _ Hkv). by apply String.eqb_eq in H.
  - intros H [k v] Hin. apply list_elem_of_In, elem_of_map_to_list in Hin.
    apply String.eqb_eq. simpl. by apply H.
Qed.

Lemma list_check_spec (v : string) (l : list string) :
  (0 <? length l)%nat && negb (found_in v l) = false <-> l = [] \/ v ∈ l.
Proof.
  destruct l as [|x l]; simpl.
  - split; auto.
  - change (negb (if String.eqb v x then true else found_in v l))
      with (negb (found_in v (x :: l))).
    rewrite negb_false_iff, found_in_spec. split; [auto|].
    intros [?|?]; [discriminate|done].
Qed.

Lemma eventMatchesSubscriber_spec (event : pb.Event) (sub : eventSubscriber) :
  eventMatchesSubscriber event sub = true
  <-> (eventTypes sub = [] \/ pb.EventType event ∈ eventTypes sub)
      /\ (scopes sub = [] \/ pb.Scope event ∈ scopes sub)
      /\ metadata_match (pb.Metadata event) (filters sub).
Proof.
  unfold eventMatchesSubscriber.
  rewrite <- !list_check_spec, <- filters_hold_spec.
  destruct ((0 <? length (eventTypes sub))%nat && _);
    destruct ((0 <? length (scopes sub))%nat && _);
    intuition congruence.
Qed.

(** The filter of the replay is the filter of the broadcast. *)
Lemma eventMatchesFilters_eq (event : pb.Event) (req : pb.SubscribeRequest)
    (st : nat) (d : bool) :
  eventMatchesFilters event req
  = eventMatchesSubscriber event
      {| eventTypes := pb.SubscribeRequest_EventTypes req;
         scopes := pb.SubscribeRequest_Scopes req;
         filters := pb.SubscribeRequest_Filters req;
         stream := st; done := d |}.
Proof. reflexivity. Qed.

(** ** The broadcast *)

Lemma Send_frame (st : nat) (event : pb.Event) (w : World) :
  events (Send st event w).1 = events w
  /\ journal (Send st event w).1 = journal w
  /\ subscribers (Send st event w).1 = subscribers w
  /\ logs (Send st event w).1 = logs w.
Proof.
  unfold Send. destruct (streams w !! st) as [s|]; [|done].
  by destruct (send_error s).
Qed.

Lemma Send_stream_error (st st' : nat) (event : pb.Event) (w : World) :
  stream_error (Send st event w).1 st' = stream_error w st'.
Proof.
  unfold Send, stream_error.
  destruct (streams w !! st) as [s|] eqn:Hs; [|done].
  destruct (send_error s) eqn:He; [done|]. simpl.
  destruct (decide (st = st')) as [<-|Hne].
  - by rewrite lookup_insert_eq, Hs.
  - by rewrite lookup_insert_ne.
Qed.

Lemma Send_healthy (st : nat) (event : pb.Event) (w : World) :
  stream_error w st = None ->
  (Send st event w).2 = inr tt
  /\ receives (Send st event w).1 st = receives w st ++ [event].
Proof.
  unfold Send, stream_error, receives.
  destruct (streams w !! st) as [s|] eqn:Hs; [|discriminate].
  intros ->. simpl. by rewrite lookup_insert_eq.
Qed.

Lemma Send_failing (st : nat) (event : pb.Event) (w : World) (msg : string) :
  stream_error w st = Some msg ->
  Send st event w = (w, inl (StreamError msg)).
Proof.
  unfold Send, stream_error.
  destruct (streams w !! st) as [s|] eqn:Hs.
  - by intros ->.
  - by intros [= <-].
Qed.

Lemma Send_other (st st' : nat) (event : pb.Event) (w : World) :
  st <> st' -> receives (Send st event w).1 st' = receives w st'.
Proof.
  intros Hne. unfold Send, receives.
  destruct (streams w !! st) as [s|] eqn:Hs; [|done].
  destruct (send_error s); [done|]. simpl. by rewrite lookup_insert_ne.
Qed.

Lemma broadcastTo_frame (event : pb.Event) (w : World) (entry : string * eventSubscriber) :
  events (broadcastTo event w entry) = events w
  /\ journal (broadcastTo event w entry) = journal w
  /\ subscribers (broadcastTo event w entry) = subscribers w.
Proof.
  destruct entry as [id sub]. unfold broadcastTo.
  destruct (eventMatchesSubscriber event sub); [|done].
  destruct (done sub); [done|].
  pose proof (Send_frame (stream sub) event w) as (He & Hj & Hs & _).
  by destruct (Send (stream sub) event w) as [w' [err|[]]].
Qed.

Lemma broadcastTo_stream_error (event : pb.Event) (w : World)
    (entry : string * eventSubscriber) (st : nat) :
  stream_error (broadcastTo event w entry) st = stream_error w st.
Proof.
  destruct entry as [id sub]. unfold broadcastTo.
  destruct (eventMatchesSubscriber event sub); [|done].
  destruct (done sub); [done|].
  pose proof (Send_stream_error (stream sub) st event w) as H.
  by destruct (Send (stream sub) event w) as [w' [err|[]]].
Qed.

Lemma broadcastTo_receives (event : pb.Event) (w : World)
    (entry : string * eventSubscriber) (st : nat) :
  stream_error w st = None ->
  receives (broadcastTo event w entry) st
  = receives w st ++ replicate (length (addressed event st [entry])) event.
Proof.
  intros Hst. destruct entry as [id sub]. unfold broadcastTo, addressed. simpl.
  destruct (eventMatchesSubscriber event sub);
    [|by rewrite andb_false_r, app_nil_r].
  destruct (done sub); [by rewrite andb_false_r, app_nil_r|].
  rewrite !andb_true_r. case_bool_decide as Heq.
  - subst st. destruct (Send_healthy _ event w Hst) as [Hok Hrecv].
    by destruct (Send (stream sub) event w) as [w' [err|[]]].
  - pose proof (Send_other _ st event w Heq) as Hrecv. rewrite app_nil_r.
    by destruct (Send (stream sub) event w) as [w' [err|[]]].
Qed.

Lemma broadcastTo_logs (event : pb.Event) (w : World) (entry : string * eventSubscriber) :
  logs w `prefix_of` logs (broadcastTo event w entry).
Proof.
  destruct entry as [id sub]. unfold broadcastTo.
  destruct (eventMatchesSubscriber event sub); [|done].
  destruct (done sub); [done|].
  pose proof (Send_frame (stream sub) event w) as (_ & _ & _ & Hl).
  destruct (Send (stream sub) event w) as [w' [err|[]]]; simpl in *.
  - rewrite Hl. by apply prefix_app_r.
  - by rewrite Hl.
Qed.

Lemma broadcastTo_failing (event : pb.Event) (w : World) (id : string)
    (sub : eventSubscriber) (msg : string) :
  eventMatchesSubscriber event sub = true ->
  done sub = false ->
  stream_error w (stream sub) = Some msg ->
  broadcastTo event w (id, sub)
  = log_Printf ("Failed to send event to subscriber " +:+ id +:+ ": " +:+ msg) w.
Proof.
  intros Hm Hd He. unfold broadcastTo. rewrite Hm, Hd.
  by rewrite (Send_failing _ _ _ _ He).
Qed.

Lemma broadcastOver_cons (event : pb.Event) (entry : string * eventSubscriber)
    (entries : list (string * eventSubscriber)) (w : World) :
  broadcastOver event (entry :: entries) w
  = broadcastOver event entries (broadcastTo event w entry).
Proof. reflexivity. Qed.

Lemma broadcastOver_frame (event : pb.Event) (entries : list (string * eventSubscriber))
    (w : World) :
  events (broadcastOver event entries w) = events w
  /\ journal (broadcastOver event entries w) = journal w
  /\ subscribers (broadcastOver event entries w) = subscribers w.
Proof.
  revert w. induction entries as [|entry entries IH]; intros w; [done|].
  rewrite broadcastOver_cons.
  destruct (IH (broadcastTo event w entry)) as (-> & -> & ->).
  apply broadcastTo_frame.
Qed.

Lemma broadcastOver_stream_error (event : pb.Event)
    (entries : list (string * eventSubscriber)) (w : World) (st : nat) :
  stream_error (broadcastOver event entries w) st = stream_error w st.
Proof.
  revert w. induction entries as [|entry entries IH]; intros w; [done|].
  rewrite broadcastOver_cons, IH. apply broadcastTo_stream_error.
Qed.

(** A working stream is sent the event once for each entry that writes
    to it, matches and is not done: whatever the order of the visit, and
    whatever becomes of the other streams. *)
Lemma broadcastOver_receives (event : pb.Event)
    (entries : list (string * eventSubscriber)) (w : World) (st : nat) :
  stream_error w st = None ->
  receives (broadcastOver event entries w) st
  = receives w st ++ replicate (length (addressed event st entries)) event.
Proof.
  revert w. induction entries as [|entry entries IH]; intros w Hst.
  - simpl. by rewrite app_nil_r.
  - rewrite broadcastOver_cons, IH by (by rewrite broadcastTo_stream_error).
    rewrite (broadcastTo_receives _ _ _ _ Hst), <- app_assoc. f_equal.
    change (addressed event st (entry :: entries))
      with (addressed event st ([entry] ++ entries)).
    unfold addressed. rewrite List.filter_app, length_app, replicate_add. done.
Qed.

Lemma broadcastOver_logs (event : pb.Event) (entries : list (string * eventSubscriber))
    (w : World) :
  logs w `prefix_of` logs (broadcastOver event entries w).
Proof.
  revert w. induction entries as [|entry entries IH]; intros w; [done|].
  rewrite broadcastOver_cons. etrans; [apply broadcastTo_logs|apply IH].
Qed.

(** A failed delivery is logged, wherever the entry comes in the visit. *)
Lemma broadcastOver_failing (event : pb.Event) (entries : list (string * eventSubscriber))
    (w : World) (id : string) (sub : eventSubscriber) (msg : string) :
  (id, sub) ∈ entries ->
  eventMatchesSubscriber event sub = true ->
  done sub = false ->
  stream_error w (stream sub) = Some msg ->
  ("Failed to send event to subscriber " +:+ id +:+ ": " +:+ msg)
    ∈ logs (broadcastOver event entries w).
Proof.
  intros Hin Hm Hd. revert w.
  induction entries as [|entry entries IH]; intros w He.
  - by apply elem_of_nil in Hin.
  - rewrite broadcastOver_cons. apply elem_of_cons in Hin as [<-|Hin].
    + eapply elem_of_prefix; [|apply broadcastOver_logs].
      rewrite (broadcastTo_failing _ _ _ _ _ Hm Hd He). simpl.
      apply elem_of_app. right. apply list_elem_of_here.
    + apply IH; [done|]. by rewrite broadcastTo_stream_error.
Qed.

Lemma filter_none {A} (f : A -> bool) (l : list A) :
  (forall x, x ∈ l -> f x = false) -> List.filter f l = [].
Proof.
  induction l as [|x l IH]; intros H; [done|]. simpl.
  rewrite (H x) by apply list_elem_of_here.
  apply IH. intros y Hy. apply H. by apply list_elem_of_further.
Qed.

(** With a stream of its own, a registered subscriber is the one entry
    that may be addressed on it. *)
Lemma addressed_private (event : pb.Event) (entries : list (string * eventSubscriber))
    (id : string) (sub : eventSubscriber) :
  NoDup entries.*1 ->
  (id, sub) ∈ entries ->
  (forall id' sub', (id', sub') ∈ entries -> stream sub' = stream sub -> id' = id) ->
  length (addressed event (stream sub) entries)
  = if eventMatchesSubscriber event sub && negb (done sub) then 1%nat else 0%nat.
Proof.
  induction entries as [|[id' sub'] entries IH]; intros Hnd Hin Hpriv.
  - by apply elem_of_nil in Hin.
  - apply NoDup_cons in Hnd as [Hfresh Hnd]. simpl in Hfresh.
    assert (Hrest : forall i s, (i, s) ∈ entries -> i <> id' ) .
    { intros i s His ->. apply Hfresh. apply list_elem_of_fmap.
      by exists (id', s). }
    unfold addressed. simpl. fold (addressed event (stream sub) entries).
    case_bool_decide as Hst; simpl.
    + assert (id' = id) as -> by (apply (Hpriv id' sub'); [apply list_elem_of_here|done]).
      assert (sub' = sub) as ->.
      { apply elem_of_cons in Hin as [Heq|Hin]; [by inversion Heq|].
        by destruct (Hrest _ _ Hin). }
      assert (addressed event (stream sub) entries = []) as Hnil.
      { unfold addressed. apply filter_none.
        intros [i s] His. simpl. case_bool_decide as Hs; [|by simpl].
        exfalso. apply (Hrest _ _ His). apply (Hpriv i s); [|done].
        by apply list_elem_of_further. }
      rewrite Hnil.
      by destruct (eventMatchesSubscriber event sub && negb (done sub)).
    + apply IH; [done| |].
      * apply elem_of_cons in Hin as [Heq|Hin]; [|done].
        inversion Heq; subst. by destruct Hst.
      * intros i s His. apply Hpriv. by apply list_elem_of_further.
Qed.

Lemma broadcastEvent_frame (event : pb.Event) (w : World) :
  events (broadcastEvent event w) = events w
  /\ journal (broadcastEvent event w) = journal w
  /\ subscribers (broadcastEvent event w) = subscribers w.
Proof. apply broadcastOver_frame. Qed.

Lemma broadcastEvent_receives (event : pb.Event) (w : World) (id : string)
    (sub : eventSubscriber) :
  subscribers w !! id = Some sub ->
  private_stream w id sub ->
  stream_error w (stream sub) = None ->
  receives (broadcastEvent event w) (stream sub)
  = receives w (stream sub)
    ++ (if eventMatchesSubscriber event sub && negb (done sub) then [event] else []).
Proof.
  intros Hsub Hpriv Hst. unfold broadcastEvent.
  rewrite (broadcastOver_receives _ _ _ _ Hst). f_equal.
  rewrite (addressed_private event _ id sub).
  - by destruct (eventMatchesSubscriber event sub && negb (done sub)).
  - apply NoDup_fst_map_to_list.
  - by apply elem_of_map_to_list.
  - intros id' sub' Hin. apply Hpriv. by apply elem_of_map_to_list.
Qed.

(** C5, as the code has it.  For a subscriber of the registry that is not
    done and has a working stream of its own, the broadcast of an event
    sends it on that stream, once, if and only if the three checks pass:
    the event types are empty or contain the type of the event, the
    scopes are empty or contain its scope, and for every key of the
    metadata filters the metadata of the event, indexed as Go indexes a
    map (an absent key reads as the empty string), gives the value of
    the filter. *)
Theorem broadcast_delivers_iff_match (w : World) (event : pb.Event) (id : string)
    (sub : eventSubscriber) :
  subscribers w !! id = Some sub ->
  done sub = false ->
  stream_error w (stream sub) = None ->
  private_stream w id sub ->
  (receives (broadcastEvent event w) (stream sub) = receives w (stream sub) ++ [event]
   <-> (eventTypes sub = [] \/ pb.EventType event ∈ eventTypes sub)
       /\ (scopes sub = [] \/ pb.Scope event ∈ scopes sub)
       /\ metadata_match (pb.Metadata event) (filters sub))
  /\ (receives (broadcastEvent event w) (stream sub) = receives w (stream sub)
      <-> eventMatchesSubscriber event sub = false).
Proof.
  intros Hsub Hd Hst Hpriv.
  rewrite (broadcastEvent_receives _ _ _ _ Hsub Hpriv Hst), Hd, andb_true_r.
  rewrite <- eventMatchesSubscriber_spec.
  destruct (eventMatchesSubscriber event sub); split; split; try done.
  - intros H. apply (f_equal length) in H. rewrite length_app in H. simpl in H. lia.
  - rewrite app_nil_r. intros H. apply (f_equal length) in H.
    rewrite length_app in H. simpl in H. lia.
  - by rewrite app_nil_r.
Qed.

Lemma broadcast_delivers_iff_match_witness :
  receives (broadcastEvent (a_message "e1" "channel:1") (one_listener [])) 1
  = receives (one_listener []) 1 ++ [a_message "e1" "channel:1"]
  <-> (eventTypes (everything 1) = [] \/ "message.sent" ∈ eventTypes (everything 1))
      /\ (scopes (everything 1) = [] \/ "channel:1" ∈ scopes (everything 1))
      /\ metadata_match ∅ (filters (everything 1)).
Proof.
  refine (proj1 (broadcast_delivers_iff_match (one_listener [])
                   (a_message "e1" "channel:1") "subscriber_1" (everything 1)
                   _ _ _ _)).
  - reflexivity.
  - reflexivity.
  - reflexivity.
  - intros id' sub' Hsub _. simpl in Hsub.
    apply lookup_singleton_Some in Hsub as [<- _]. reflexivity.
Defined.

(** C5 as stated fails on the metadata check: a filter that asks for the
    empty string under a key is passed by an event that has no such key,
    and the event is delivered. *)
Lemma broadcast_delivers_without_key :
  receives (broadcastEvent (a_message "e1" "channel:1") blank_filter_world) 1
  = [a_message "e1" "channel:1"]
  /\ pb.Metadata (a_message "e1" "channel:1") !! "room" = None
  /\ ~ metadata_match_as_stated (pb.Metadata (a_message "e1" "channel:1"))
                                (filters blank_filter).
Proof.
  split; [by vm_compute|]. split; [done|].
  intros H. specialize (H "room" EmptyString). simpl in H.
  rewrite lookup_singleton_eq in H. specialize (H eq_refl).
  by rewrite lookup_empty in H.
Qed.

(** C6, as the code has it.  When a published event matches a subscriber
    X whose stream fails and a subscriber Y with a working stream of its
    own, the failure of X is logged, Y is sent the event, Publish
    answers with success, and the registry is left as it was: X stays in
    it. *)
Theorem broadcast_isolates_failure (now : Z) (req : pb.PublishRequest)
    (event : pb.Event) (w : World) (idX idY msg : string) (subX subY : eventSubscriber) :
  pb.PublishRequest_Event req = Some event ->
  database.has_event_id (stored_id now event) (events w) = false ->
  subscribers w !! idX = Some subX ->
  done subX = false ->
  eventMatchesSubscriber (published now event w) subX = true ->
  stream_error w (stream subX) = Some msg ->
  subscribers w !! idY = Some subY ->
  done subY = false ->
  eventMatchesSubscriber (published now event w) subY = true ->
  stream_error w (stream subY) = None ->
  private_stream w idY subY ->
  (Publish now req w).2
  = inr {| pb.PublishResponse_EventId := stored_id now event;
           pb.PublishResponse_Sequence := pb.Sequence (published now event w);
           pb.PublishResponse_Success := true |}
  /\ receives (Publish now req w).1 (stream subY)
     = receives w (stream subY) ++ [published now event w]
  /\ ("Failed to send event to subscriber " +:+ idX +:+ ": " +:+ msg)
       ∈ logs (Publish now req w).1
  /\ subscribers (Publish now req w).1 = subscribers w.
Proof.
  intros Hreq Hnew HX HdX HmX HeX HY HdY HmY HeY Hpriv.
  rewrite (Publish_fresh _ _ _ _ Hreq Hnew). simpl.
  set (w1 := with_store _ StmtCreateEvent (after_read w)).
  split; [done|]. split; [|split].
  - rewrite (broadcastEvent_receives _ w1 idY subY HY Hpriv HeY).
    by rewrite HmY, HdY.
  - unfold broadcastEvent.
    apply (broadcastOver_failing _ _ w1 idX subX msg); try done.
    by apply elem_of_map_to_list.
  - by destruct (broadcastEvent_frame (published now event w) w1) as (_ & _ & ->).
Qed.

Lemma broadcast_isolates_failure_witness :
  receives (Publish 42 {| pb.PublishRequest_Event := Some (a_message "e1" "channel:1") |}
              dead_and_alive).1 2
  = receives dead_and_alive 2
    ++ [published 42 (a_message "e1" "channel:1") dead_and_alive].
Proof.
  refine (proj1 (proj2 (broadcast_isolates_failure 42 _ (a_message "e1" "channel:1")
            dead_and_alive "subscriber_X" "subscriber_Y" "EOF"
            (everything 1) (everything 2) _ _ _ _ _ _ _ _ _ _ _)));
    try reflexivity.
  intros id' sub' Hsub Hst.
  change (subscribers dead_and_alive)
    with (<["subscriber_X" := everything 1]>
            ({["subscriber_Y" := everything 2]} : gmap string eventSubscriber)) in Hsub.
  apply lookup_insert_Some in Hsub as [[<- <-]|[_ Hsub]]; [discriminate|].
  apply lookup_singleton_Some in Hsub as [<- _]. reflexivity.
Defined.

(** C6 as stated fails on the removal: after the failed delivery X is
    still in the registry with its [done] channel open, and the next
    publish tries it again and logs a second failure. *)
Lemma failed_subscriber_not_marked :
  let out := Publish 42 {| pb.PublishRequest_Event := Some (a_message "e1" "channel:1") |}
               dead_and_alive in
  let out' := Publish 43 {| pb.PublishRequest_Event := Some (a_message "e2" "channel:1") |}
                out.1 in
  logs out.1 = ["Failed to send event to subscriber subscriber_X: EOF"]
  /\ ~ marked_for_removal out.1 "subscriber_X"
  /\ subscribers out.1 = subscribers dead_and_alive
  /\ logs out'.1 = ["Failed to send event to subscriber subscriber_X: EOF";
                    "Failed to send event to subscriber subscriber_X: EOF"].
Proof.
  split; [by vm_compute|]. split; [|split; by vm_compute].
  unfold marked_for_removal.
  assert (subscribers (Publish 42 {| pb.PublishRequest_Event :=
            Some (a_message "e1" "channel:1") |} dead_and_alive).1
          !! "subscriber_X" = Some (everything 1)) as -> by (by vm_compute).
  simpl. discriminate.
Qed.

(** ** Reading the log *)

(** The statement of GetEvents is handed four arguments besides the event
    types. *)
Lemma binds_length (arg : database.GetEventsParams) :
  length (database.binds arg) = (length (database.q_EventTypes arg) + 4)%nat.
Proof.
  unfold database.binds. cbn [length]. rewrite length_app, length_map. simpl. lia.
Qed.

(** No argument is left for the placeholder of the limit. *)
Lemma limit_is_unbound (arg : database.GetEventsParams) :
  database.placeholder arg (length (database.q_EventTypes arg) + 4)%nat
  = database.SqlNull.
Proof.
  unfold database.placeholder. rewrite lookup_ge_None_2; [done|].
  rewrite binds_length. lia.
Qed.

(** So the statement is refused, whatever the table holds. *)
Lemma database_GetEvents_fails (tbl : database.table) (arg : database.GetEventsParams) :
  database.GetEvents tbl arg = inl (SqlError "datatype mismatch").
Proof. unfold database.GetEvents. by rewrite limit_is_unbound. Qed.

(** What GetEvents does with a scope that is not empty: the latest
    sequence is read when no upper bound is given, then the statement of
    GetEvents is run and refused. *)
Lemma GetEvents_fails (req : pb.GetEventsRequest) (w : World) :
  pb.GetEventsRequest_Scope req <> EmptyString ->
  GetEvents req w
  = (with_store (events w) StmtGetEvents
       (if pb.GetEventsRequest_ToSequence req <=? 0 then after_read w else w),
     inl (Status Internal "failed to get events: datatype mismatch")).
Proof.
  intros Hne. unfold GetEvents.
  destruct (String.eqb_spec (pb.GetEventsRequest_Scope req) EmptyString) as [|_];
    [done|].
  unfold bind, db_GetEvents.
  destruct (pb.GetEventsRequest_ToSequence req <=? 0); cbn -[database.GetEvents];
    by rewrite database_GetEvents_fails.
Qed.

(** C7.  GetEvents returns no events at all.  For every request with a
    scope that is not empty, whatever the table holds and whatever the
    event types, the bounds and the limit of the request are, the call
    ends with the status Internal, "failed to get events: datatype
    mismatch": the query names the slice of event types twice and is
    handed it once, so that no argument is left for its limit.  The
    table, the registry and the streams are as before the call. *)
Theorem GetEvents_returns_no_events (req : pb.GetEventsRequest) (w : World) :
  pb.GetEventsRequest_Scope req <> EmptyString ->
  (GetEvents req w).2
  = inl (Status Internal "failed to get events: datatype mismatch")
  /\ events (GetEvents req w).1 = events w
  /\ subscribers (GetEvents req w).1 = subscribers w
  /\ streams (GetEvents req w).1 = streams w.
Proof.
  intros Hne. rewrite (GetEvents_fails req w Hne). cbn [fst snd].
  by destruct (pb.GetEventsRequest_ToSequence req <=? 0).
Qed.

Lemma GetEvents_returns_no_events_witness :
  (GetEvents (query "channel:1" 1 3 10)
     (world_of (numbered "channel:1" 1 3))).2
  = inl (Status Internal "failed to get events: datatype mismatch")
  /\ events (GetEvents (query "channel:1" 1 3 10)
               (world_of (numbered "channel:1" 1 3))).1
     = numbered "channel:1" 1 3
  /\ subscribers (GetEvents (query "channel:1" 1 3 10)
                    (world_of (numbered "channel:1" 1 3))).1 = ∅
  /\ streams (GetEvents (query "channel:1" 1 3 10)
                (world_of (numbered "channel:1" 1 3))).1 = ∅.
Proof.
  apply (GetEvents_returns_no_events (query "channel:1" 1 3 10)
           (world_of (numbered "channel:1" 1 3))).
  simpl. discriminate.
Defined.

(** ** The replay *)

Lemma sendMatching_healthy (st : nat) (req : pb.SubscribeRequest)
    (evs : list pb.Event) (w : World) :
  stream_error w st = None ->
  (sendMatching st req evs w).2 = inr tt
  /\ receives (sendMatching st req evs w).1 st
     = receives w st ++ List.filter (fun e => eventMatchesFilters e req) evs
  /\ stream_error (sendMatching st req evs w).1 st = None
  /\ events (sendMatching st req evs w).1 = events w
  /\ subscribers (sendMatching st req evs w).1 = subscribers w.
Proof.
  revert w. induction evs as [|e evs IH]; intros w Hst.
  - simpl. by rewrite app_nil_r.
  - simpl. destruct (eventMatchesFilters e req); [|by apply IH].
    unfold bind.
    destruct (Send_healthy st e w Hst) as [Hok Hrecv].
    pose proof (Send_stream_error st st e w) as Herr.
    pose proof (Send_frame st e w) as (Hev & _ & Hsub & _).
    destruct (Send st e w) as [w' [err|[]]]; simpl in *; [done|].
    rewrite Hst in Herr. destruct (IH w' Herr) as (-> & -> & -> & -> & ->).
    by rewrite Hrecv, <- app_assoc.
Qed.


(** The replay asks GetEvents for its first scope and returns with the
    error of that call. *)
Lemma replayScopes_fails (st : nat) (req : pb.SubscribeRequest) (scope : string)
    (rest : list string) (w : World) :
  scope <> EmptyString ->
  replayScopes st req (scope :: rest) w
  = (with_store (events w) StmtGetEvents (after_read w),
     inl (Status Internal "failed to get events: datatype mismatch")).
Proof.
  intros Hne. cbn [replayScopes]. unfold bind.
  by rewrite (GetEvents_fails
                (pb.mkGetEventsRequest scope (pb.SubscribeRequest_EventTypes req)
                   (pb.SubscribeRequest_FromSequence req) 0 100) w Hne).
Qed.

Lemma subscribe_replay_fails (req : pb.SubscribeRequest) (st : nat) (scope : string)
    (rest : list string) (w : World) :
  pb.SubscribeRequest_FromSequence req <> 0 ->
  pb.SubscribeRequest_Scopes req = scope :: rest ->
  scope <> EmptyString ->
  subscribe_replay req st w
  = (with_store (events w) StmtGetEvents (after_read w),
     inl (Status Internal "failed to get events: datatype mismatch")).
Proof.
  intros Hfrom Hscopes Hne. unfold subscribe_replay, sendHistoricalEvents.
  destruct (Z.eqb_spec (pb.SubscribeRequest_FromSequence req) 0) as [|_]; [done|].
  rewrite Hscopes. cbn [length Nat.eqb]. by apply replayScopes_fails.
Qed.

(** C8.  A subscription that asks for a replay is ended by it.  With a
    from_sequence of 0, or with no scope listed, Subscribe does not
    replay: it registers the subscriber and waits, without reading the
    store and without sending anything.  With a from_sequence other than
    0 and a first listed scope that is not empty, Subscribe reads the
    latest sequence of that scope, runs the query of GetEvents, which is
    refused, and returns with the status Internal, "failed to get events:
    datatype mismatch".  No stored event is sent: every stream is as it
    was before the call.  The subscriber is out of the registry again,
    and the table is unchanged. *)
Theorem replay_ends_subscription (now : Z) (req : pb.SubscribeRequest) (st : nat)
    (w : World) :
  (pb.SubscribeRequest_FromSequence req = 0 \/ pb.SubscribeRequest_Scopes req = [] ->
   Subscribe_open now req st w = (subscribe_register now req st w, None))
  /\ (forall (scope : string) (rest : list string),
        pb.SubscribeRequest_FromSequence req <> 0 ->
        pb.SubscribeRequest_Scopes req = scope :: rest ->
        scope <> EmptyString ->
        (Subscribe_open now req st w).2
        = Some (Status Internal "failed to get events: datatype mismatch")
        /\ streams (Subscribe_open now req st w).1 = streams w
        /\ events (Subscribe_open now req st w).1 = events w
        /\ subscribers (Subscribe_open now req st w).1
           = delete (subscriberID_at now) (subscribers w)
        /\ journal (Subscribe_open now req st w).1
           = journal w ++ [StmtGetLatestSequence; StmtGetEvents]).
Proof.
  split.
  - intros Hskip. unfold Subscribe_open, subscribe_replay, sendHistoricalEvents.
    destruct (Z.eqb_spec (pb.SubscribeRequest_FromSequence req) 0) as [|Hfrom]; [done|].
    destruct Hskip as [|Hnil]; [done|]. by rewrite Hnil.
  - intros scope rest Hfrom Hscopes Hne. unfold Subscribe_open.
    rewrite (subscribe_replay_fails req st scope rest _ Hfrom Hscopes Hne).
    cbn [fst snd]. split; [done|]. split; [done|]. split; [done|]. split.
    + simpl. apply delete_insert_eq.
    + simpl. by rewrite <- app_assoc.
Qed.

Lemma replay_ends_subscription_witness :
  (Subscribe_open 7 (catch_up ["channel:1"] 1) 1
     (one_stream (numbered "channel:1" 1 2))).2
  = Some (Status Internal "failed to get events: datatype mismatch")
  /\ streams (Subscribe_open 7 (catch_up ["channel:1"] 1) 1
                (one_stream (numbered "channel:1" 1 2))).1
     = streams (one_stream (numbered "channel:1" 1 2))
  /\ events (Subscribe_open 7 (catch_up ["channel:1"] 1) 1
               (one_stream (numbered "channel:1" 1 2))).1
     = events (one_stream (numbered "channel:1" 1 2))
  /\ subscribers (Subscribe_open 7 (catch_up ["channel:1"] 1) 1
                    (one_stream (numbered "channel:1" 1 2))).1
     = delete (subscriberID_at 7) (subscribers (one_stream (numbered "channel:1" 1 2)))
  /\ journal (Subscribe_open 7 (catch_up ["channel:1"] 1) 1
                (one_stream (numbered "channel:1" 1 2))).1
     = journal (one_stream (numbered "channel:1" 1 2))
       ++ [StmtGetLatestSequence; StmtGetEvents].
Proof.
  apply (proj2 (replay_ends_subscription 7 (catch_up ["channel:1"] 1) 1
                  (one_stream (numbered "channel:1" 1 2))) "channel:1" []).
  - simpl. discriminate.
  - reflexivity.
  - discriminate.
Defined.

(** ** Publishing in turn, and side by side *)

Lemma step_at_single (c : call) (w : World) :
  step_at (w, [c]) 0 = ((call_step c w).1, [(call_step c w).2]).
Proof. unfold step_at. simpl. by destruct (call_step c w). Qed.

Lemma call_step_PublishCall (now : Z) (req : pb.PublishRequest) (event : pb.Event)
    (w : World) :
  pb.PublishRequest_Event req = Some event ->
  call_step (PublishCall now req) w
  = (after_read w, PublishSequenced (published now event w)).
Proof. intros Hreq. simpl. unfold publish_prepare. by rewrite Hreq. Qed.

Lemma call_step_PublishSequenced (event : pb.Event) (w : World) :
  call_step (PublishSequenced event) w
  = if database.has_event_id (pb.EventId event) (events w)
    then (with_store (events w) StmtCreateEvent w,
          PublishReturned
            (inl (Status Internal
                    "failed to store event: UNIQUE constraint failed: events.event_id")))
    else (with_store (events w ++ [database.row_of (CreateEventParams_of event)])
            StmtCreateEvent w,
          PublishStored event).
Proof.
  simpl. unfold publish_store, db_CreateEvent, database.CreateEvent. simpl.
  by destruct (database.has_event_id (pb.EventId event) (events w)).
Qed.

(** Run without interruption, the three steps of a call are Publish. *)
Lemma Publish_steps (now : Z) (req : pb.PublishRequest) (w : World) :
  run [0; 0; 0]%nat (w, [PublishCall now req])
  = ((Publish now req w).1, [PublishReturned (Publish now req w).2]).
Proof.
  change (run [0; 0; 0]%nat (w, [PublishCall now req]))
    with (step_at (step_at (step_at (w, [PublishCall now req]) 0) 0) 0).
  destruct (pb.PublishRequest_Event req) as [event|] eqn:Hreq.
  - rewrite step_at_single, (call_step_PublishCall _ _ _ _ Hreq). cbn [fst snd].
    rewrite step_at_single, call_step_PublishSequenced.
    change (pb.EventId (published now event w)) with (stored_id now event).
    change (events (after_read w)) with (events w).
    destruct (database.has_event_id (stored_id now event) (events w)) eqn:Hid.
    + by rewrite (Publish_duplicate _ _ _ _ Hreq Hid).
    + by rewrite (Publish_fresh _ _ _ _ Hreq Hid).
  - rewrite (Publish_missing _ _ _ Hreq), step_at_single. simpl.
    unfold publish_prepare. by rewrite Hreq.
Qed.

(** Run without interruption, the first two steps of a call to Subscribe
    are Subscribe up to the point where it waits. *)
Lemma Subscribe_steps (now : Z) (req : pb.SubscribeRequest) (st : nat) (w : World) :
  run [0; 0]%nat (w, [SubscribeCall now req st])
  = ((Subscribe_open now req st w).1,
     [match (Subscribe_open now req st w).2 with
      | None => SubscribeWaiting (subscriberID_at now)
      | Some err => SubscribeReturned (Some err)
      end]).
Proof.
  change (run [0; 0]%nat (w, [SubscribeCall now req st]))
    with (step_at (step_at (w, [SubscribeCall now req st]) 0) 0).
  rewrite step_at_single. cbn [call_step fst snd]. rewrite step_at_single.
  unfold Subscribe_open. cbn [call_step].
  by destruct (subscribe_replay req st (subscribe_register now req st w))
    as [w' [err|[]]].
Qed.

Lemma max_sequence_snoc (scope : string) (tbl : database.table) (r : database.Event) :
  database.Scope r = scope ->
  database.max_sequence scope (tbl ++ [r])
  = Some (match database.max_sequence scope tbl with
          | Some m => Z.max m (database.Sequence r)
          | None => database.Sequence r
          end).
Proof.
  intros Hr. induction tbl as [|x tbl IH]; simpl.
  - by rewrite (proj2 (String.eqb_eq _ _) Hr).
  - rewrite IH. destruct (String.eqb (database.Scope x) scope); [|done].
    destruct (database.max_sequence scope tbl); f_equal; lia.
Qed.

Lemma has_event_id_snoc (id : string) (tbl : database.table) (r : database.Event) :
  database.has_event_id id (tbl ++ [r])
  = database.has_event_id id tbl || String.eqb (database.EventID r) id.
Proof.
  unfold database.has_event_id. rewrite existsb_app. simpl. by rewrite orb_false_r.
Qed.

Lemma publish_all_cons (now : Z) (req : pb.PublishRequest)
    (rest : list (Z * pb.PublishRequest)) (w : World) :
  (publish_all ((now, req) :: rest) w).2
  = (Publish now req w).2 :: (publish_all rest (Publish now req w).1).2.
Proof.
  simpl. destruct (Publish now req w) as [w' r]. simpl.
  by destruct (publish_all rest w') as [w'' rs].
Qed.

(** Calls made in turn on a scope continue its numbering. *)
Lemma publish_all_numbers (scope : string) (calls : list (Z * pb.Event)) :
  forall (w : World) (m : Z),
    default 0 (database.max_sequence scope (events w)) = m ->
    0 <= m ->
    m + Z.of_nat (length calls) <= int64_max ->
    Forall (fun c => pb.Scope c.2 = scope) calls ->
    NoDup (map (fun c => stored_id c.1 c.2) calls) ->
    Forall (fun c => database.has_event_id (stored_id c.1 c.2) (events w) = false) calls ->
    map assigned (publish_all (requests calls) w).2
    = map Some (seqZ (m + 1) (Z.of_nat (length calls))).
Proof.
  induction calls as [|[now event] calls IH]; intros w m Hm Hpos Hmax Hscope Hnd Hnew.
  - done.
  - apply Forall_cons in Hscope as [Hs Hscope]. apply Forall_cons in Hnew as [Hn Hnew].
    simpl in Hnd. apply NoDup_cons in Hnd as [Hfresh Hnd]. simpl in Hs, Hn.
    change (requests ((now, event) :: calls))
      with ((now, {| pb.PublishRequest_Event := Some event |}) :: requests calls).
    rewrite publish_all_cons.
    rewrite (Publish_fresh now {| pb.PublishRequest_Event := Some event |}
               event w eq_refl Hn). cbn [fst snd].
    set (e := published now event w).
    assert (pb.Sequence e = m + 1) as Hseq.
    { unfold e, published. simpl. rewrite Hs, Hm. apply wrap64_id.
      unfold is_int64, int64_min. rewrite length_cons in Hmax. lia. }
    rewrite length_cons, Nat2Z.inj_succ, seqZ_cons by lia.
    rewrite !map_cons. unfold assigned at 1. cbn [pb.PublishResponse_Sequence].
    rewrite Hseq. f_equal.
    replace (Z.pred (Z.succ (Z.of_nat (length calls)))) with (Z.of_nat (length calls))
      by lia.
    set (w' := broadcastEvent e _).
    assert (events w' = events w ++ [database.row_of (CreateEventParams_of e)]) as Hev.
    { unfold w'. by destruct (broadcastEvent_frame e
        (with_store (events w ++ [database.row_of (CreateEventParams_of e)])
           StmtCreateEvent (after_read w))) as (-> & _). }
    apply (IH w' (m + 1)).
    + rewrite Hev, max_sequence_snoc by (simpl; by rewrite <- Hs).
      change (database.Sequence (database.row_of (CreateEventParams_of e)))
        with (pb.Sequence e).
      rewrite Hseq. clear Hseq Hev w'.
      destruct (database.max_sequence scope (events w)); simpl in *; lia.
    + lia.
    + rewrite length_cons in Hmax. lia.
    + done.
    + done.
    + apply Forall_forall. intros c Hc. rewrite Forall_forall in Hnew.
      rewrite Hev, has_event_id_snoc, (Hnew c Hc). simpl.
      apply String.eqb_neq. intros Heq. apply Hfresh.
      apply list_elem_of_In in Hc. apply list_elem_of_In.
      apply in_map_iff. exists c. split; [|done].
      rewrite <- Heq. reflexivity.
Qed.

(** C1, as the code has it.  Calls to Publish on a scope without events,
    made one after the other with identifiers that differ from each
    other and from those stored, and no more of them than an int64 can
    count, are answered with the sequence numbers 1, 2, ... in the order
    of the calls: none twice, none left out. *)
Theorem publishes_in_turn_number_from_one (scope : string)
    (calls : list (Z * pb.Event)) (w : World) :
  in_scope scope (events w) = [] ->
  Forall (fun c => pb.Scope c.2 = scope) calls ->
  NoDup (map (fun c => stored_id c.1 c.2) calls) ->
  Forall (fun c => database.has_event_id (stored_id c.1 c.2) (events w) = false) calls ->
  Z.of_nat (length calls) <= int64_max ->
  map assigned (publish_all (requests calls) w).2
  = map Some (seqZ 1 (Z.of_nat (length calls))).
Proof.
  intros Hempty Hscope Hnd Hnew Hmax.
  apply (publish_all_numbers scope calls w 0); try done.
  apply max_sequence_None in Hempty. by rewrite Hempty.
Qed.

Lemma publishes_in_turn_number_from_one_witness :
  map assigned
    (publish_all (requests [(1, a_message "e1" "channel:1");
                            (2, a_message "e2" "channel:1");
                            (3, a_message EmptyString "channel:1")])
       (world_of [a_row "e0" "server:1" 5])).2
  = map Some (seqZ 1 3).
Proof.
  apply (publishes_in_turn_number_from_one "channel:1"
           [(1, a_message "e1" "channel:1"); (2, a_message "e2" "channel:1");
            (3, a_message EmptyString "channel:1")]
           (world_of [a_row "e0" "server:1" 5])).
  - reflexivity.
  - repeat constructor.
  - apply (bool_decide_unpack _). by vm_compute.
  - repeat constructor.
  - vm_compute. discriminate.
Defined.

(** C1 as stated fails when the calls overlap: two calls on the same
    scope that both read the latest sequence before either inserts its
    row are both answered with sequence 1, and both rows are stored
    with it. *)
Lemma overlapping_publishes_share_a_number :
  answers (run [0; 1; 0; 1; 0; 1]%nat two_publishers) = [Some 1; Some 1]
  /\ map (fun r => (database.EventID r, database.Sequence r))
         (events (run [0; 1; 0; 1; 0; 1]%nat two_publishers).1)
     = [("e1", 1); ("e2", 1)]
  /\ answers (run [0; 0; 0; 1; 1; 1]%nat two_publishers) = [Some 1; Some 2].
Proof. vm_compute. done. Qed.

(** ** From the replay to the live events *)

(** C9.  A reconnecting client is not brought up to date.  [reconnect] is
    a client that subscribes to [channel:1] from sequence 1, where the
    events 1 and 2 are stored, while the event 3 is being published.
    When the event is published between the registration and the replay,
    the stream is sent the event 3 by the broadcast, and then the replay
    fails: Subscribe returns with the status Internal, "failed to get
    events: datatype mismatch", the subscriber leaves the registry, and
    the stored events 1 and 2 are never sent.  When Subscribe runs to its
    end before the event is published, or starts after it is stored, the
    stream is sent nothing at all.  In every case the three events are in
    the table at the end. *)
Theorem reconnect_is_not_brought_up_to_date :
  (run [0; 1; 1; 1; 0]%nat reconnect).2
  = [SubscribeReturned
       (Some (Status Internal "failed to get events: datatype mismatch"));
     PublishReturned (inr {| pb.PublishResponse_EventId := "e3";
                             pb.PublishResponse_Sequence := 3;
                             pb.PublishResponse_Success := true |})]
  /\ delivered (run [0; 1; 1; 1; 0]%nat reconnect).1 1 = [("e3", 3)]
  /\ subscribers (run [0; 1; 1; 1; 0]%nat reconnect).1 !! subscriberID_at 7 = None
  /\ map (fun r => (database.EventID r, database.Sequence r))
         (events (run [0; 1; 1; 1; 0]%nat reconnect).1)
     = [("e1", 1); ("e2", 2); ("e3", 3)]
  /\ (run [0; 0; 1; 1; 1]%nat reconnect).2
     = (run [0; 1; 1; 1; 0]%nat reconnect).2
  /\ delivered (run [0; 0; 1; 1; 1]%nat reconnect).1 1 = []
  /\ (run [1; 1; 1; 0; 0]%nat reconnect).2
     = (run [0; 1; 1; 1; 0]%nat reconnect).2
  /\ delivered (run [1; 1; 1; 0; 0]%nat reconnect).1 1 = []
  /\ events (run [0; 0; 1; 1; 1]%nat reconnect).1
     = events (run [0; 1; 1; 1; 0]%nat reconnect).1
  /\ events (run [1; 1; 1; 0; 0]%nat reconnect).1
     = events (run [0; 1; 1; 1; 0]%nat reconnect).1.
Proof.
  split; [by vm_compute|]. split; [by vm_compute|]. split; [by vm_compute|].
  split; [by vm_compute|]. split; [by vm_compute|]. split; [by vm_compute|].
  split; [by vm_compute|]. split; [by vm_compute|]. split; by vm_compute.
Qed.

(** * Further properties of the event service *)

(** ** What Publish does to the table *)

Lemma has_event_id_spec (id : string) (tbl : database.table) :
  database.has_event_id id tbl = true <-> id ∈ map database.EventID tbl.
Proof.
  unfold database.has_event_id. rewrite existsb_exists, list_elem_of_In, in_map_iff.
  split; intros (r & H1 & H2).
  - apply String.eqb_eq in H2. eauto.
  - exists r. split; [done|]. by apply String.eqb_eq.
Qed.

(** The three ways a call to Publish can go. *)
Lemma Publish_outcome (now : Z) (req : pb.PublishRequest) (w : World) :
  (pb.PublishRequest_Event req = None
   /\ Publish now req w = (w, inl (Status InvalidArgument "event is required")))
  \/ (exists event,
        pb.PublishRequest_Event req = Some event
        /\ database.has_event_id (stored_id now event) (events w) = true
        /\ (Publish now req w).2
           = inl (Status Internal
                    "failed to store event: UNIQUE constraint failed: events.event_id")
        /\ events (Publish now req w).1 = events w
        /\ subscribers (Publish now req w).1 = subscribers w
        /\ streams (Publish now req w).1 = streams w)
  \/ (exists event,
        pb.PublishRequest_Event req = Some event
        /\ database.has_event_id (stored_id now event) (events w) = false
        /\ (Publish now req w).2
           = inr {| pb.PublishResponse_EventId := stored_id now event;
                    pb.PublishResponse_Sequence := pb.Sequence (published now event w);
                    pb.PublishResponse_Success := true |}
        /\ events (Publish now req w).1
           = events w ++ [database.row_of (CreateEventParams_of (published now event w))]
        /\ subscribers (Publish now req w).1 = subscribers w).
Proof.
  destruct (pb.PublishRequest_Event req) as [event|] eqn:Hreq.
  - right. destruct (database.has_event_id (stored_id now event) (events w)) eqn:Hid.
    + left. exists event. by rewrite (Publish_duplicate _ _ _ _ Hreq Hid).
    + right. exists event. rewrite (Publish_fresh _ _ _ _ Hreq Hid). cbn [fst snd].
      set (e := published now event w).
      destruct (broadcastEvent_frame e
                  (with_store (events w ++ [database.row_of (CreateEventParams_of e)])
                     StmtCreateEvent (after_read w))) as (-> & _ & ->).
      done.
  - left. split; [done|]. by apply Publish_missing.
Qed.

(** X1.  Publish only ever appends to the table: a call that fails
    leaves the table as it was, and a call that succeeds adds one row
    at the end, with the identifier and the sequence of the answer and
    the type, scope and actor of the event of the request; no stored
    row is changed or removed. *)
Theorem Publish_append_only (now : Z) (req : pb.PublishRequest) (w : World) :
  match (Publish now req w).2 with
  | inl _ => events (Publish now req w).1 = events w
  | inr resp =>
      exists row event,
        events (Publish now req w).1 = events w ++ [row]
        /\ pb.PublishRequest_Event req = Some event
        /\ database.EventID row = pb.PublishResponse_EventId resp
        /\ database.Sequence row = pb.PublishResponse_Sequence resp
        /\ database.EventType row = pb.EventType event
        /\ database.Scope row = pb.Scope event
        /\ database.ActorID row = pb.ActorId event
  end.
Proof.
  destruct (Publish_outcome now req w)
    as [[_ ->]|[(event & _ & _ & -> & Hev & _)|(event & Hreq & _ & -> & Hev & _)]];
    try done.
  eexists _, event. split; [exact Hev|]. by rewrite Hreq.
Qed.

(** X2.  Publish keeps the identifiers of the table distinct. *)
Theorem Publish_keeps_ids_distinct (now : Z) (req : pb.PublishRequest) (w : World) :
  NoDup (map database.EventID (events w)) ->
  NoDup (map database.EventID (events (Publish now req w).1)).
Proof.
  intros Hnd.
  destruct (Publish_outcome now req w)
    as [[_ ->]|[(event & _ & _ & _ & -> & _)|(event & _ & Hnew & _ & -> & _)]];
    try done.
  rewrite map_app. simpl. apply NoDup_app. split; [done|]. split.
  - intros id Hid [->|[]%elem_of_nil]%elem_of_cons.
    apply has_event_id_spec in Hid. unfold stored_id in Hnew. simpl in *. congruence.
  - apply NoDup_singleton.
Qed.

Lemma Publish_keeps_ids_distinct_witness :
  NoDup (map database.EventID
           (events (Publish 42 {| pb.PublishRequest_Event :=
                                    Some (a_message "e3" "channel:1") |} busy_world).1)).
Proof.
  apply (Publish_keeps_ids_distinct 42 _ busy_world).
  apply (bool_decide_unpack _). by vm_compute.
Defined.

(** X3.  Publish does not look at the sequence field of the event it is
    given: whatever the caller puts there, the answer and the world are
    the same. *)
Theorem Publish_ignores_given_sequence (now seq : Z) (event : pb.Event) (w : World) :
  Publish now {| pb.PublishRequest_Event := Some (set_Sequence seq event) |} w
  = Publish now {| pb.PublishRequest_Event := Some event |} w.
Proof.
  set (req := {| pb.PublishRequest_Event := Some event |}).
  set (req' := {| pb.PublishRequest_Event := Some (set_Sequence seq event) |}).
  destruct (database.has_event_id (stored_id now event) (events w)) eqn:Hid.
  - rewrite (Publish_duplicate now req event w eq_refl Hid).
    by rewrite (Publish_duplicate now req' (set_Sequence seq event) w eq_refl Hid).
  - rewrite (Publish_fresh now req event w eq_refl Hid).
    by rewrite (Publish_fresh now req' (set_Sequence seq event) w eq_refl Hid).
Qed.

Lemma in_scope_app (scope : string) (a b : database.table) :
  in_scope scope (a ++ b) = in_scope scope a ++ in_scope scope b.
Proof. apply List.filter_app. Qed.

Lemma in_scope_snoc_other (scope : string) (tbl : database.table) (r : database.Event) :
  database.Scope r <> scope -> in_scope scope (tbl ++ [r]) = in_scope scope tbl.
Proof.
  intros Hne. rewrite in_scope_app. unfold in_scope at 2. simpl.
  destruct (String.eqb_spec (database.Scope r) scope); [done|]. by rewrite app_nil_r.
Qed.

Lemma in_scope_snoc_same (scope : string) (tbl : database.table) (r : database.Event) :
  database.Scope r = scope -> in_scope scope (tbl ++ [r]) = in_scope scope tbl ++ [r].
Proof.
  intros He. rewrite in_scope_app. unfold in_scope at 2. simpl.
  by rewrite (proj2 (String.eqb_eq _ _) He).
Qed.

Lemma max_sequence_in_scope (scope : string) (tbl : database.table) :
  database.max_sequence scope (in_scope scope tbl) = database.max_sequence scope tbl.
Proof.
  induction tbl as [|r tbl IH]; [done|]. simpl.
  destruct (String.eqb (database.Scope r) scope) eqn:E; [|done].
  simpl. by rewrite E, IH.
Qed.

Lemma published_sequence (now : Z) (event : pb.Event) (w : World) (m : Z) :
  latest_sequence (pb.Scope event) (events w) m ->
  int64_min <= m < int64_max ->
  pb.Sequence (published now event w) = m + 1.
Proof.
  intros Hm Hrange.
  pose proof (latest_sequence_unique _ _ _ _ Hm
                (latest_sequence_max (pb.Scope event) (events w))) as ->.
  unfold published. simpl. apply wrap64_id.
  unfold is_int64, int64_min, int64_max in *. lia.
Qed.

(** X4.  Publishing to one scope leaves every other scope as it was:
    its rows and its latest sequence are the same after the call. *)
Theorem Publish_leaves_other_scopes (now : Z) (event : pb.Event) (w : World)
    (scope : string) :
  pb.Scope event <> scope ->
  in_scope scope (events (Publish now {| pb.PublishRequest_Event := Some event |} w).1)
  = in_scope scope (events w)
  /\ database.GetLatestSequence
       (events (Publish now {| pb.PublishRequest_Event := Some event |} w).1) scope
     = database.GetLatestSequence (events w) scope.
Proof.
  intros Hne.
  assert (in_scope scope
            (events (Publish now {| pb.PublishRequest_Event := Some event |} w).1)
          = in_scope scope (events w)) as Hin.
  { destruct (Publish_outcome now {| pb.PublishRequest_Event := Some event |} w)
      as [[_ ->]|[(ev & _ & _ & _ & -> & _)|(ev & Hreq & _ & _ & -> & _)]]; try done.
    injection Hreq as <-. by apply in_scope_snoc_other. }
  split; [done|]. unfold database.GetLatestSequence.
  by rewrite <- max_sequence_in_scope, Hin, max_sequence_in_scope.
Qed.

Lemma Publish_leaves_other_scopes_witness :
  in_scope "channel:1"
    (events (Publish 42 {| pb.PublishRequest_Event := Some (a_message "e9" "server:1") |}
               busy_world).1)
  = in_scope "channel:1" (events busy_world).
Proof.
  apply (proj1 (Publish_leaves_other_scopes 42 (a_message "e9" "server:1")
                  busy_world "channel:1" ltac:(discriminate))).
Defined.

(** X5.  Calls made in turn keep the sequences of a scope strictly
    increasing in the order of insertion: if the rows of a scope are so
    ordered and its latest sequence is below the greatest int64, they
    are so ordered after any call to Publish; no sequence then occurs
    twice in the scope. *)
Theorem Publish_keeps_scope_increasing (now : Z) (req : pb.PublishRequest) (w : World)
    (scope : string) (m : Z) :
  latest_sequence scope (events w) m ->
  int64_min <= m < int64_max ->
  StronglySorted (fun a b => database.Sequence a < database.Sequence b)
                 (in_scope scope (events w)) ->
  StronglySorted (fun a b => database.Sequence a < database.Sequence b)
                 (in_scope scope (events (Publish now req w).1))
  /\ NoDup (map database.Sequence (in_scope scope (events (Publish now req w).1))).
Proof.
  intros Hm Hrange Hsorted.
  assert (StronglySorted (fun a b => database.Sequence a < database.Sequence b)
            (in_scope scope (events (Publish now req w).1))) as Hafter.
  { destruct (Publish_outcome now req w)
      as [[_ ->]|[(ev & _ & _ & _ & -> & _)|(ev & Hreq & _ & _ & -> & _)]]; try done.
    destruct (decide (pb.Scope ev = scope)) as [Hs|Hs].
    - rewrite in_scope_snoc_same by done.
      apply StronglySorted_app. split; [|split; [done|repeat constructor]].
      intros x y Hx ->%list_elem_of_singleton.
      change (database.Sequence (database.row_of
                (CreateEventParams_of (published now ev w))))
        with (pb.Sequence (published now ev w)).
      subst scope. rewrite (published_sequence now ev w m Hm Hrange).
      destruct Hm as [[Hnil _]|[_ Hmax]].
      + rewrite Hnil in Hx. by apply elem_of_nil in Hx.
      + specialize (Hmax x Hx). lia.
    - by rewrite in_scope_snoc_other. }
  split; [done|].
  clear -Hafter. induction Hafter as [|r l _ IH Hall]; simpl; constructor; [|done].
  intros Hin. apply list_elem_of_In, in_map_iff in Hin as (x & Heq & Hx).
  rewrite Forall_forall in Hall. apply list_elem_of_In in Hx.
  specialize (Hall x Hx). simpl in Hall. lia.
Qed.

Lemma Publish_keeps_scope_increasing_witness :
  NoDup (map database.Sequence
           (in_scope "channel:1"
              (events (Publish 42 {| pb.PublishRequest_Event :=
                                       Some (a_message "e3" "channel:1") |}
                         busy_world).1))).
Proof.
  refine (proj2 (Publish_keeps_scope_increasing 42 _ busy_world "channel:1" 2 _ _ _)).
  - exact (latest_sequence_max "channel:1" (events busy_world)).
  - unfold int64_min, int64_max. lia.
  - vm_compute. repeat constructor.
Defined.

(** ** Reading back what was published *)

(** A stored row gives back the event it was made of, without its
    payload, as long as the event has a timestamp. *)
Lemma stored_round_trip (event : pb.Event) :
  is_Some (pb.Timestamp event) ->
  dbEventToProto (database.row_of (CreateEventParams_of event)) = without_payload event.
Proof.
  intros [t Ht]. unfold dbEventToProto, without_payload. simpl. rewrite Ht. simpl.
  f_equal. case_bool_decide as Hm; [|done]. by rewrite Hm.
Qed.

Lemma published_has_timestamp (now : Z) (event : pb.Event) (w : World) :
  is_Some (pb.Timestamp (published now event w)).
Proof. simpl. destruct (pb.Timestamp event); eauto. Qed.

(** X7.  Identifiers made from the clock collide: when two events
    without an identifier are published at the same reading of the
    clock, the first is stored under [event_<clock>] and the second is
    refused with the status Internal, as a duplicate. *)
Theorem generated_ids_collide (now : Z) (e1 e2 : pb.Event) (w : World) :
  pb.EventId e1 = EmptyString ->
  pb.EventId e2 = EmptyString ->
  database.has_event_id ("event_" +:+ pretty now) (events w) = false ->
  (Publish now {| pb.PublishRequest_Event := Some e1 |} w).2
  = inr {| pb.PublishResponse_EventId := "event_" +:+ pretty now;
           pb.PublishResponse_Sequence := pb.Sequence (published now e1 w);
           pb.PublishResponse_Success := true |}
  /\ (Publish now {| pb.PublishRequest_Event := Some e2 |}
        (Publish now {| pb.PublishRequest_Event := Some e1 |} w).1).2
     = inl (Status Internal
              "failed to store event: UNIQUE constraint failed: events.event_id").
Proof.
  intros H1 H2 Hnew.
  assert (forall e, pb.EventId e = EmptyString ->
                    stored_id now e = "event_" +:+ pretty now) as Hid.
  { intros e He. unfold stored_id. simpl. by rewrite He. }
  set (req1 := {| pb.PublishRequest_Event := Some e1 |}).
  set (req2 := {| pb.PublishRequest_Event := Some e2 |}).
  assert (database.has_event_id (stored_id now e1) (events w) = false) as Hnew1
    by (by rewrite Hid).
  destruct (Publish_outcome now req1 w)
    as [[? _]|[(ev & Hreq & Hdup & _)|(ev & Hreq & _ & Hres & Hev & _)]]; try done.
  { injection Hreq as <-. congruence. }
  injection Hreq as <-. rewrite Hres. split; [by rewrite Hid|].
  assert (database.has_event_id (stored_id now e2) (events (Publish now req1 w).1) = true)
    as Hdup.
  { rewrite Hev, has_event_id_snoc, (Hid e2 H2). apply orb_true_iff. right.
    apply String.eqb_eq. change (stored_id now e1 = "event_" +:+ pretty now).
    by apply Hid. }
  by rewrite (Publish_duplicate now req2 e2 _ eq_refl Hdup).
Qed.

Lemma generated_ids_collide_witness :
  (Publish 42 {| pb.PublishRequest_Event := Some (a_message EmptyString "server:1") |}
     (Publish 42 {| pb.PublishRequest_Event := Some (a_message EmptyString "channel:1") |}
        busy_world).1).2
  = inl (Status Internal
           "failed to store event: UNIQUE constraint failed: events.event_id").
Proof.
  refine (proj2 (generated_ids_collide 42 (a_message EmptyString "channel:1")
                   (a_message EmptyString "server:1") busy_world _ _ _));
    reflexivity.
Defined.

(** X8.  The sequencer wraps around: for a scope whose latest sequence
    is the greatest int64, [getNextSequence] answers the least int64
    rather than failing. *)
Theorem getNextSequence_wraps (w : World) (scope : string) :
  latest_sequence scope (events w) int64_max ->
  (getNextSequence scope w).2 = inr int64_min.
Proof.
  intros Hm.
  pose proof (latest_sequence_unique _ _ _ _ Hm (latest_sequence_max scope (events w)))
    as Heq.
  rewrite getNextSequence_eq. simpl. rewrite <- Heq. reflexivity.
Qed.

Lemma getNextSequence_wraps_witness :
  (getNextSequence "channel:1"
     (world_of [a_row "e1" "channel:1" 9223372036854775807])).2 = inr int64_min.
Proof.
  apply getNextSequence_wraps.
  exact (latest_sequence_max "channel:1" [a_row "e1" "channel:1" 9223372036854775807]).
Defined.

(** ** More on GetEvents *)

Lemma GetEvents_frame (req : pb.GetEventsRequest) (w : World) :
  events (GetEvents req w).1 = events w
  /\ subscribers (GetEvents req w).1 = subscribers w
  /\ streams (GetEvents req w).1 = streams w
  /\ logs (GetEvents req w).1 = logs w.
Proof.
  destruct (String.eqb_spec (pb.GetEventsRequest_Scope req) EmptyString) as [He|Hne].
  - unfold GetEvents. by rewrite He.
  - rewrite (GetEvents_fails req w Hne). cbn [fst].
    by destruct (pb.GetEventsRequest_ToSequence req <=? 0).
Qed.

(** X9.  GetEvents only reads.  Whatever the request, the table, the
    registry, the streams and the log are as before the call.  The
    statements it runs are none when the scope is empty, and otherwise
    the read of the latest sequence, only when to_sequence is not
    positive, followed by the query. *)
Theorem GetEvents_only_reads (req : pb.GetEventsRequest) (w : World) :
  events (GetEvents req w).1 = events w
  /\ subscribers (GetEvents req w).1 = subscribers w
  /\ streams (GetEvents req w).1 = streams w
  /\ logs (GetEvents req w).1 = logs w
  /\ journal (GetEvents req w).1
     = journal w
       ++ (if String.eqb (pb.GetEventsRequest_Scope req) EmptyString then []
           else (if pb.GetEventsRequest_ToSequence req <=? 0
                 then [StmtGetLatestSequence] else [])
                ++ [StmtGetEvents]).
Proof.
  destruct (GetEvents_frame req w) as (-> & -> & -> & ->). repeat split.
  destruct (String.eqb_spec (pb.GetEventsRequest_Scope req) EmptyString) as [He|Hne].
  - unfold GetEvents. rewrite He. simpl. by rewrite app_nil_r.
  - rewrite (GetEvents_fails req w Hne). cbn [fst].
    destruct (pb.GetEventsRequest_ToSequence req <=? 0); simpl; [|done].
    by rewrite <- app_assoc.
Qed.

(** ** The life of a subscription *)

(** Calls that leave the table and the registry alone, chained. *)
Lemma bind_frame {A B} (m : Go A) (k : A -> Go B) (w : World) :
  (forall w, events (m w).1 = events w /\ subscribers (m w).1 = subscribers w) ->
  (forall a w, events (k a w).1 = events w /\ subscribers (k a w).1 = subscribers w) ->
  events (bind m k w).1 = events w /\ subscribers (bind m k w).1 = subscribers w.
Proof.
  intros Hm Hk. unfold bind. specialize (Hm w).
  destruct (m w) as [w' [err|a]]; simpl in Hm; [done|].
  destruct (Hk a w') as [-> ->]. done.
Qed.

Lemma sendMatching_frame (st : nat) (req : pb.SubscribeRequest)
    (evs : list pb.Event) (w : World) :
  events (sendMatching st req evs w).1 = events w
  /\ subscribers (sendMatching st req evs w).1 = subscribers w.
Proof.
  revert w. induction evs as [|e evs IH]; intros w; [done|]. simpl.
  destruct (eventMatchesFilters e req); [|apply IH].
  apply bind_frame; [|intros _; apply IH].
  intros w'. by destruct (Send_frame st e w') as (-> & _ & -> & _).
Qed.

Lemma replayScopes_frame (st : nat) (req : pb.SubscribeRequest)
    (scopes : list string) (w : World) :
  events (replayScopes st req scopes w).1 = events w
  /\ subscribers (replayScopes st req scopes w).1 = subscribers w.
Proof.
  revert w. induction scopes as [|scope scopes IH]; intros w; [done|]. simpl.
  apply bind_frame.
  - intros w'. by destruct (GetEvents_frame
      (pb.mkGetEventsRequest scope (pb.SubscribeRequest_EventTypes req)
         (pb.SubscribeRequest_FromSequence req) 0 100) w') as (-> & -> & _).
  - intros resp w'. apply bind_frame; [|intros _; apply IH].
    intros w''. apply sendMatching_frame.
Qed.

Lemma subscribe_replay_frame (req : pb.SubscribeRequest) (st : nat) (w : World) :
  events (subscribe_replay req st w).1 = events w
  /\ subscribers (subscribe_replay req st w).1 = subscribers w.
Proof.
  unfold subscribe_replay, sendHistoricalEvents.
  destruct (pb.SubscribeRequest_FromSequence req =? 0); [done|].
  destruct (length (pb.SubscribeRequest_Scopes req) =? 0)%nat; [done|].
  apply replayScopes_frame.
Qed.

Lemma Subscribe_open_frame (now : Z) (req : pb.SubscribeRequest) (st : nat) (w : World) :
  events (Subscribe_open now req st w).1 = events w
  /\ match (Subscribe_open now req st w).2 with
     | None => subscribers (Subscribe_open now req st w).1
               = <[subscriberID_at now := subscriber_of req st]> (subscribers w)
     | Some _ => subscribers (Subscribe_open now req st w).1
                 = delete (subscriberID_at now) (subscribers w)
     end.
Proof.
  unfold Subscribe_open.
  pose proof (subscribe_replay_frame req st (subscribe_register now req st w))
    as (He & Hs).
  destruct (subscribe_replay req st (subscribe_register now req st w))
    as [w' [err|[]]]; simpl in He, Hs; simpl.
  - rewrite He, Hs. split; [done|]. simpl. apply delete_insert_eq.
  - by rewrite He, Hs.
Qed.

(** X11.  Subscribe never changes the table, and it leaves the registry
    in one of two states: when it reaches the point where it waits, the
    registry is the one it found with the new subscriber entered under
    its identifier; when it returns with an error, that identifier is
    not in the registry and every other entry is as it was. *)
Theorem Subscribe_open_registry (now : Z) (req : pb.SubscribeRequest) (st : nat)
    (w : World) :
  events (Subscribe_open now req st w).1 = events w
  /\ match (Subscribe_open now req st w).2 with
     | None => subscribers (Subscribe_open now req st w).1
               = <[subscriberID_at now := subscriber_of req st]> (subscribers w)
     | Some _ => subscribers (Subscribe_open now req st w).1 !! subscriberID_at now = None
                 /\ forall id, id <> subscriberID_at now ->
                      subscribers (Subscribe_open now req st w).1 !! id
                      = subscribers w !! id
     end.
Proof.
  destruct (Subscribe_open_frame now req st w) as [He Hs]. split; [done|].
  destruct (Subscribe_open now req st w).2; [|done].
  rewrite Hs. split; [apply lookup_delete_eq|].
  intros id Hne. by apply lookup_delete_ne.
Qed.

(** X12.  A subscription leaves no trace in the registry: when its
    identifier is not in use, the registry after the call has returned
    (with an error from the replay, or because the client went away) is
    the registry before the call. *)
Theorem Subscribe_restores_registry (now : Z) (req : pb.SubscribeRequest) (st : nat)
    (w : World) :
  subscribers w !! subscriberID_at now = None ->
  subscribers (match (Subscribe_open now req st w).2 with
               | None => Subscribe_close (subscriberID_at now)
                           (Subscribe_open now req st w).1
               | Some _ => (Subscribe_open now req st w).1
               end)
  = subscribers w.
Proof.
  intros Hfree. destruct (Subscribe_open_frame now req st w) as [_ Hs].
  destruct (Subscribe_open now req st w).2.
  - rewrite Hs. by apply delete_id.
  - simpl. rewrite Hs, delete_insert_eq. by apply delete_id.
Qed.

Lemma Subscribe_restores_registry_witness :
  subscribers (match (Subscribe_open 7 (catch_up ["channel:1"] 1) 1 busy_world).2 with
               | None => Subscribe_close (subscriberID_at 7)
                           (Subscribe_open 7 (catch_up ["channel:1"] 1) 1 busy_world).1
               | Some _ => (Subscribe_open 7 (catch_up ["channel:1"] 1) 1 busy_world).1
               end)
  = subscribers busy_world.
Proof.
  apply (Subscribe_restores_registry 7 (catch_up ["channel:1"] 1) 1 busy_world).
  reflexivity.
Defined.

(** X13.  Subscriber identifiers made from the clock collide: a second
    Subscribe at the same reading of the clock takes the registry entry
    of the first.  From then on a broadcast sends nothing to the stream
    of the first subscriber, and when either call returns the entry is
    removed, although the other client is still connected. *)
Theorem subscribers_collide (now : Z) (req1 req2 : pb.SubscribeRequest)
    (st1 st2 : nat) (w : World) (event : pb.Event) :
  st1 <> st2 ->
  stream_error w st1 = None ->
  (forall id sub, subscribers w !! id = Some sub -> stream sub <> st1) ->
  let w2 := subscribe_register now req2 st2 (subscribe_register now req1 st1 w) in
  subscribers w2 = <[subscriberID_at now := subscriber_of req2 st2]> (subscribers w)
  /\ receives (broadcastEvent event w2) st1 = receives w st1
  /\ subscribers (Subscribe_close (subscriberID_at now) w2) !! subscriberID_at now = None.
Proof.
  intros Hne Hst Hothers w2.
  assert (subscribers w2
          = <[subscriberID_at now := subscriber_of req2 st2]> (subscribers w)) as Hreg
    by apply insert_insert_eq.
  split; [done|]. split; [|apply lookup_delete_eq].
  unfold broadcastEvent. rewrite (broadcastOver_receives event _ w2 st1 Hst).
  change (receives w2 st1) with (receives w st1). unfold addressed.
  rewrite (filter_none _ (map_to_list (subscribers w2))); [by rewrite app_nil_r|].
  intros [id sub] Hin. apply elem_of_map_to_list in Hin. rewrite Hreg in Hin.
  simpl. case_bool_decide as Hs; [|done]. exfalso.
  apply lookup_insert_Some in Hin as [[_ <-]|[_ Hin]].
  - by apply Hne.
  - by apply (Hothers id sub).
Qed.

Lemma subscribers_collide_witness :
  receives (broadcastEvent (a_message "e9" "channel:1")
              (subscribe_register 7 (catch_up [] 0) 2
                 (subscribe_register 7 (catch_up [] 0) 1 two_streams))) 1
  = receives two_streams 1.
Proof.
  refine (proj1 (proj2 (subscribers_collide 7 (catch_up [] 0) (catch_up [] 0) 1 2
                          two_streams (a_message "e9" "channel:1") _ _ _))).
  - discriminate.
  - reflexivity.
  - intros id sub Hsub. simpl in Hsub. by rewrite lookup_empty in Hsub.
Defined.

(** ** Replays that fail *)

(** X14.  A replay whose first scope is the empty string is refused
    before the store is read: when the request has a from_sequence other
    than 0 and its first scope is the empty string, Subscribe returns
    with the status InvalidArgument, "scope is required".  No statement
    is run, nothing is sent on any stream, the table is unchanged and the
    subscriber is out of the registry again. *)
Theorem replay_rejects_empty_scope (now : Z) (req : pb.SubscribeRequest) (st : nat)
    (rest : list string) (w : World) :
  pb.SubscribeRequest_FromSequence req <> 0 ->
  pb.SubscribeRequest_Scopes req = EmptyString :: rest ->
  (Subscribe_open now req st w).2
  = Some (Status InvalidArgument "scope is required")
  /\ journal (Subscribe_open now req st w).1 = journal w
  /\ streams (Subscribe_open now req st w).1 = streams w
  /\ events (Subscribe_open now req st w).1 = events w
  /\ subscribers (Subscribe_open now req st w).1
     = delete (subscriberID_at now) (subscribers w).
Proof.
  intros Hfrom Hscopes. unfold Subscribe_open, subscribe_replay, sendHistoricalEvents.
  destruct (Z.eqb_spec (pb.SubscribeRequest_FromSequence req) 0) as [|_]; [done|].
  rewrite Hscopes. cbn [length Nat.eqb replayScopes]. unfold bind.
  cbn [GetEvents pb.GetEventsRequest_Scope String.eqb fail fst snd].
  split; [done|]. split; [done|]. split; [done|]. split; [done|].
  simpl. apply delete_insert_eq.
Qed.

Lemma replay_rejects_empty_scope_witness :
  (Subscribe_open 7 (catch_up [EmptyString; "channel:1"] 1) 1 two_streams).2
  = Some (Status InvalidArgument "scope is required")
  /\ journal (Subscribe_open 7 (catch_up [EmptyString; "channel:1"] 1) 1 two_streams).1
     = journal two_streams
  /\ streams (Subscribe_open 7 (catch_up [EmptyString; "channel:1"] 1) 1 two_streams).1
     = streams two_streams
  /\ events (Subscribe_open 7 (catch_up [EmptyString; "channel:1"] 1) 1 two_streams).1
     = events two_streams
  /\ subscribers (Subscribe_open 7 (catch_up [EmptyString; "channel:1"] 1) 1
                    two_streams).1
     = delete (subscriberID_at 7) (subscribers two_streams).
Proof.
  apply (replay_rejects_empty_scope 7 (catch_up [EmptyString; "channel:1"] 1) 1
           ["channel:1"] two_streams).
  - simpl. discriminate.
  - reflexivity.
Defined.

(** ** The broadcast and the order of the visit *)

Lemma stream_after_0 (event : pb.Event) (s : ServerStream) :
  stream_after event 0 s = s.
Proof.
  unfold stream_after. destruct s as [[msg|] l]; simpl; [done|]. by rewrite app_nil_r.
Qed.

Lemma stream_after_add (event : pb.Event) (j k : nat) (s : ServerStream) :
  stream_after event k (stream_after event j s) = stream_after event (j + k) s.
Proof.
  unfold stream_after. destruct s as [[msg|] l]; simpl; [done|].
  by rewrite <- app_assoc, replicate_add.
Qed.

Lemma stream_after_0_fmap (event : pb.Event) (o : option ServerStream) :
  stream_after event 0 <$> o = o.
Proof. destruct o as [s|]; [|done]. simpl. by rewrite stream_after_0. Qed.

Lemma Send_streams (st st' : nat) (event : pb.Event) (w : World) :
  streams (Send st event w).1 !! st'
  = stream_after event (if bool_decide (st = st') then 1 else 0) <$> streams w !! st'.
Proof.
  unfold Send. destruct (streams w !! st) as [s|] eqn:Hs.
  - destruct (send_error s) eqn:He; simpl.
    + case_bool_decide as Heq; [|by rewrite stream_after_0_fmap].
      subst st'. rewrite Hs. simpl. unfold stream_after. by rewrite He.
    + case_bool_decide as Heq.
      * subst st'. rewrite lookup_insert_eq, Hs. simpl. unfold stream_after.
        by rewrite He.
      * rewrite lookup_insert_ne by done. by rewrite stream_after_0_fmap.
  - simpl. case_bool_decide as Heq; [|by rewrite stream_after_0_fmap].
    subst st'. by rewrite Hs.
Qed.

Lemma broadcastTo_streams (event : pb.Event) (w : World)
    (entry : string * eventSubscriber) (st : nat) :
  streams (broadcastTo event w entry) !! st
  = stream_after event (length (addressed event st [entry])) <$> streams w !! st.
Proof.
  destruct entry as [id sub]. unfold broadcastTo, addressed. simpl.
  destruct (eventMatchesSubscriber event sub);
    [|by rewrite andb_false_r, stream_after_0_fmap].
  destruct (done sub); [by rewrite andb_false_r, stream_after_0_fmap|].
  rewrite !andb_true_r.
  pose proof (Send_streams (stream sub) st event w) as Hs.
  destruct (Send (stream sub) event w) as [w' [err|[]]]; simpl in Hs |- *;
    rewrite Hs; by case_bool_decide.
Qed.

Lemma broadcastOver_streams (event : pb.Event) (entries : list (string * eventSubscriber))
    (w : World) (st : nat) :
  streams (broadcastOver event entries w) !! st
  = stream_after event (length (addressed event st entries)) <$> streams w !! st.
Proof.
  revert w. induction entries as [|entry entries IH]; intros w.
  - simpl. by rewrite stream_after_0_fmap.
  - rewrite broadcastOver_cons, IH, broadcastTo_streams.
    change (addressed event st (entry :: entries))
      with (addressed event st ([entry] ++ entries)).
    unfold addressed at 3. rewrite List.filter_app, length_app.
    destruct (streams w !! st) as [s|]; [|done]. simpl.
    by rewrite stream_after_add.
Qed.






(** X17.  The replay and the broadcast apply the same filter: for a
    subscriber registered for a request, with a working stream of its
    own, replaying one event to the stream and broadcasting that event
    leave the stream with the same events sent; an event is replayed
    exactly if it would be broadcast to the subscriber. *)
Theorem replay_filter_is_broadcast_filter (req : pb.SubscribeRequest) (st : nat)
    (id : string) (w : World) (event : pb.Event) :
  subscribers w !! id = Some (subscriber_of req st) ->
  private_stream w id (subscriber_of req st) ->
  stream_error w st = None ->
  receives (sendMatching st req [event] w).1 st = receives (broadcastEvent event w) st
  /\ (eventMatchesFilters event req = true
      <-> receives (broadcastEvent event w) st = receives w st ++ [event]).
Proof.
  intros Hsub Hpriv Hst.
  destruct (sendMatching_healthy st req [event] w Hst) as (_ & Hreplay & _).
  pose proof (broadcastEvent_receives event w id (subscriber_of req st) Hsub Hpriv Hst)
    as Hlive.
  change (stream (subscriber_of req st)) with st in Hlive.
  change (eventMatchesSubscriber event (subscriber_of req st))
    with (eventMatchesFilters event req) in Hlive.
  rewrite Hreplay, Hlive. simpl. rewrite andb_true_r.
  split; [by destruct (eventMatchesFilters event req)|].
  destruct (eventMatchesFilters event req); split; try done.
  rewrite app_nil_r. intros H. apply (f_equal length) in H.
  rewrite length_app in H. simpl in H. lia.
Qed.

Lemma replay_filter_is_broadcast_filter_witness :
  receives (sendMatching 1 (catch_up [] 0) [a_message "e9" "channel:1"] busy_world).1 1
  = receives (broadcastEvent (a_message "e9" "channel:1") busy_world) 1.
Proof.
  refine (proj1 (replay_filter_is_broadcast_filter (catch_up [] 0) 1 "subscriber_1"
                   busy_world (a_message "e9" "channel:1") _ _ _)).
  - reflexivity.
  - intros id' sub' Hsub _. simpl in Hsub.
    apply lookup_singleton_Some in Hsub as [<- _]. reflexivity.
  - reflexivity.
Defined.

(** ** The other statements on the table *)

Lemma find_has_event_id (id : string) (tbl : database.table) :
  database.has_event_id id tbl
  = match List.find (fun r => String.eqb (database.EventID r) id) tbl with
    | Some _ => true
    | None => false
    end.
Proof.
  unfold database.has_event_id. induction tbl as [|r tbl IH]; simpl; [done|].
  by destruct (String.eqb (database.EventID r) id).
Qed.

Lemma find_snoc {A} (f : A -> bool) (l : list A) (x : A) :
  List.find f (l ++ [x])
  = match List.find f l with
    | Some y => Some y
    | None => if f x then Some x else None
    end.
Proof. induction l as [|y l IH]; simpl; [done|]. by destruct (f y). Qed.

(** X18.  Insert and look up: CreateEvent fails exactly when GetEvent
    already finds a row under the identifier, and then changes nothing;
    when it succeeds, GetEvent finds the new row under its identifier
    and finds under every other identifier what it found before. *)
Theorem CreateEvent_then_GetEvent (tbl : database.table)
    (arg : database.CreateEventParams) :
  match (database.CreateEvent tbl arg).2 with
  | inl _ =>
      (exists old, database.GetEvent tbl (database.c_EventID arg) = inr old)
      /\ (database.CreateEvent tbl arg).1 = tbl
  | inr row =>
      database.GetEvent tbl (database.c_EventID arg)
      = inl (SqlError "sql: no rows in result set")
      /\ row = database.row_of arg
      /\ database.GetEvent (database.CreateEvent tbl arg).1 (database.c_EventID arg)
         = inr row
      /\ forall id, id <> database.c_EventID arg ->
           database.GetEvent (database.CreateEvent tbl arg).1 id
           = database.GetEvent tbl id
  end.
Proof.
  unfold database.CreateEvent, database.GetEvent.
  rewrite find_has_event_id.
  destruct (List.find (fun r => String.eqb (database.EventID r) (database.c_EventID arg))
              tbl) as [old|] eqn:Hfind.
  - simpl. eauto.
  - simpl. split; [done|]. split; [done|]. split.
    + rewrite find_snoc, Hfind. simpl. by rewrite String.eqb_refl.
    + intros id Hne. rewrite find_snoc.
      destruct (List.find (fun r => String.eqb (database.EventID r) id) tbl); [done|].
      change (database.EventID (database.row_of arg)) with (database.c_EventID arg).
      by destruct (String.eqb_spec (database.c_EventID arg) id); [congruence|].
Qed.


(** X6.  What Publish stores is what it published.  After a call that
    succeeds, GetEvent finds one row under the identifier of the answer,
    and [dbEventToProto] makes of that row the event as it was
    broadcast: with the identifier, type, scope, actor, timestamp,
    metadata and sequence it was published with, and without its
    payload. *)
Theorem published_event_is_stored (now : Z) (event : pb.Event) (w : World) :
  database.has_event_id (stored_id now event) (events w) = false ->
  exists row,
    database.GetEvent
      (events (Publish now {| pb.PublishRequest_Event := Some event |} w).1)
      (stored_id now event) = inr row
    /\ dbEventToProto row = without_payload (published now event w).
Proof.
  intros Hnew.
  set (req := {| pb.PublishRequest_Event := Some event |}).
  set (e := published now event w).
  set (row := database.row_of (CreateEventParams_of e)).
  assert (events (Publish now req w).1 = events w ++ [row]) as Hev.
  { destruct (Publish_outcome now req w)
      as [[? _]|[(ev & Hreq & Hdup & _)|(ev & Hreq & _ & _ & Hev & _)]]; try done.
    - injection Hreq as <-. congruence.
    - by injection Hreq as <-. }
  exists row. split; [|apply stored_round_trip, published_has_timestamp].
  unfold database.GetEvent. rewrite Hev, find_snoc.
  rewrite find_has_event_id in Hnew.
  destruct (List.find (fun r => String.eqb (database.EventID r) (stored_id now event))
              (events w)); [done|].
  change (database.EventID row) with (stored_id now event).
  by rewrite String.eqb_refl.
Qed.

Lemma published_event_is_stored_witness :
  exists row,
    database.GetEvent
      (events (Publish 42 {| pb.PublishRequest_Event := Some (a_message "e3" "channel:1") |}
                 busy_world).1)
      (stored_id 42 (a_message "e3" "channel:1")) = inr row
    /\ dbEventToProto row
       = without_payload (published 42 (a_message "e3" "channel:1") busy_world).
Proof.
  apply (published_event_is_stored 42 (a_message "e3" "channel:1") busy_world).
  reflexivity.
Defined.
#[global] Instance newest_first_total : Total database.newest_first.
Proof. intros a b. unfold database.newest_first. lia. Qed.

#[global] Instance newest_first_trans : Transitive database.newest_first.
Proof. intros a b c. unfold database.newest_first. lia. Qed.

(** X19.  The newest row of a scope carries its latest sequence:
    GetEventsByScope with limit 1 and offset 0 returns nothing when the
    scope has no rows, and otherwise one stored row of the scope whose
    sequence is the answer of GetLatestSequence. *)
Theorem newest_row_has_latest_sequence (tbl : database.table) (scope : string) :
  match database.GetEventsByScope tbl
          {| database.s_Scope := scope; database.s_Limit := 1;
             database.s_Offset := 0 |} with
  | [] => in_scope scope tbl = []
  | r :: rest =>
      rest = []
      /\ r ∈ in_scope scope tbl
      /\ database.GetLatestSequence tbl scope = AnyInt64 (database.Sequence r)
  end.
Proof.
  unfold database.GetEventsByScope, database.sql_limit, database.sql_offset. simpl.
  fold (in_scope scope tbl).
  pose proof (merge_sort_Permutation database.newest_first (in_scope scope tbl)) as Hperm.
  pose proof (StronglySorted_merge_sort database.newest_first (in_scope scope tbl))
    as Hsorted.
  destruct (merge_sort database.newest_first (in_scope scope tbl)) as [|r l]; simpl.
  - symmetry in Hperm. by apply Permutation_nil_r in Hperm.
  - split; [by destruct l|].
    assert (r ∈ in_scope scope tbl) as Hr by (rewrite <- Hperm; apply list_elem_of_here).
    split; [done|]. unfold database.GetLatestSequence. f_equal.
    destruct (database.max_sequence scope tbl) as [m|] eqn:Hm; simpl.
    + destruct (max_sequence_Some _ _ _ Hm) as [(r0 & Hr0 & <-) Hmax].
      specialize (Hmax r Hr).
      rewrite <- Hperm in Hr0. apply elem_of_cons in Hr0 as [->|Hr0]; [done|].
      apply StronglySorted_cons in Hsorted as [Hall _].
      rewrite Forall_forall in Hall. specialize (Hall r0 Hr0).
      unfold database.newest_first in Hall. lia.
    + apply max_sequence_None in Hm. rewrite Hm in Hr. by apply elem_of_nil in Hr.
Qed.

(** * The client's event handler *)

Lemma substring_whole (s : string) : String.substring 0 (String.length s) s = s.
Proof. induction s as [|c s IH]; simpl; [done|]. by rewrite IH. Qed.

(** X20.  The server identifier comes back out of a scope: for an
    identifier that is not empty, [extractServerIdFromScope] applied to
    [server:] followed by the identifier gives the identifier; the bare
    prefix [server:] is returned as it is, and so is a scope that
    starts with [channel:]. *)
Theorem extractServerIdFromScope_round_trip :
  (forall id, id <> EmptyString ->
     client.extractServerIdFromScope ("server:" +:+ id) = id)
  /\ client.extractServerIdFromScope "server:" = "server:"
  /\ (forall c, client.extractServerIdFromScope ("channel:" +:+ c) = "channel:" +:+ c).
Proof.
  split; [|split; [done|]].
  - intros id Hid. unfold client.extractServerIdFromScope.
    destruct id as [|a id]; [done|]. simpl. f_equal.
    apply substring_whole.
  - intros c. unfold client.extractServerIdFromScope. simpl.
    by destruct c.
Qed.

Lemma is_message_not_channel (event : pb.Event) :
  client.is_message event = true -> client.is_channel event = false.
Proof.
  unfold client.is_message, client.is_channel. intros ->%String.eqb_eq. done.
Qed.

Lemma handleEvent_cases (e : client.EventHandler) (event : pb.Event) :
  client.closed (client.MessageChan e) = false ->
  client.closed (client.ChannelChan e) = false ->
  exists e',
    client.handleEvent e event = Some e'
    /\ client.closed (client.MessageChan e') = false
    /\ client.closed (client.ChannelChan e') = false
    /\ client.buffer (client.MessageChan e')
       = client.offered (client.MessageChan e)
           (if client.is_message event then [client.message_of event] else [])
    /\ client.buffer (client.ChannelChan e')
       = client.offered (client.ChannelChan e)
           (if client.is_channel event then [client.channel_of event] else []).
Proof.
  intros Hm Hc. unfold client.handleEvent.
  fold (client.is_message event). fold (client.is_channel event).
  fold (client.message_of event). fold (client.channel_of event).
  unfold client.offered.
  destruct (client.is_message event) eqn:Hmsg.
  - rewrite (is_message_not_channel event Hmsg). unfold client.try_send. rewrite Hm.
    rewrite take_nil, app_nil_r.
    destruct (Nat.ltb_spec (length (client.buffer (client.MessageChan e)))
                client.capacity) as [Hlt|Hge].
    + eexists. split; [reflexivity|]. simpl. repeat split; try done.
      destruct (client.capacity - _)%nat eqn:Hroom; [lia|]. simpl. by rewrite take_nil.
    + eexists. split; [reflexivity|]. simpl. repeat split; try done.
      replace (client.capacity - _)%nat with 0%nat by lia. simpl. by rewrite app_nil_r.
  - rewrite take_nil, app_nil_r. destruct (client.is_channel event) eqn:Hch.
    + unfold client.try_send. rewrite Hc.
      destruct (Nat.ltb_spec (length (client.buffer (client.ChannelChan e)))
                  client.capacity) as [Hlt|Hge].
      * eexists. split; [reflexivity|]. simpl. repeat split; try done.
        destruct (client.capacity - _)%nat eqn:Hroom; [lia|]. simpl. by rewrite take_nil.
      * eexists. split; [reflexivity|]. simpl. repeat split; try done.
        replace (client.capacity - _)%nat with 0%nat by lia. simpl. by rewrite app_nil_r.
    + exists e. rewrite take_nil, app_nil_r. done.
Qed.

Lemma offered_offered {A} (c c' : client.chan A) (xs ys : list A) :
  client.buffer c' = client.offered c xs ->
  client.offered c' ys = client.offered c (xs ++ ys).
Proof.
  unfold client.offered. intros ->. rewrite <- app_assoc. f_equal.
  rewrite take_app, length_app, length_take. f_equal.
  destruct (decide (length xs <= client.capacity - length (client.buffer c))%nat).
  - rewrite Nat.min_r by lia.
    replace (client.capacity - (length (client.buffer c) + length xs))%nat
      with (client.capacity - length (client.buffer c) - length xs)%nat by lia.
    done.
  - rewrite Nat.min_l by lia.
    replace (client.capacity - (length (client.buffer c)
               + (client.capacity - length (client.buffer c))))%nat with 0%nat by lia.
    replace (client.capacity - length (client.buffer c) - length xs)%nat
      with 0%nat by lia.
    done.
Qed.

(** X21.  The handler never blocks and keeps the oldest hundred: while
    its channels are open and nothing is taken out of them, handling a
    list of events ends without a panic; each channel then holds what
    it held followed by the messages (or channels) made of the events
    of its kind, in order, up to a total of one hundred, the later ones
    being dropped; events of other types change neither channel. *)
Theorem handler_keeps_oldest_hundred (e : client.EventHandler) (events : list pb.Event) :
  client.closed (client.MessageChan e) = false ->
  client.closed (client.ChannelChan e) = false ->
  exists e',
    client.handleAll e events = Some e'
    /\ client.buffer (client.MessageChan e')
       = client.offered (client.MessageChan e)
           (map client.message_of (List.filter client.is_message events))
    /\ client.buffer (client.ChannelChan e')
       = client.offered (client.ChannelChan e)
           (map client.channel_of (List.filter client.is_channel events)).
Proof.
  revert e. induction events as [|event events IH]; intros e Hm Hc.
  - exists e. unfold client.offered. simpl. by rewrite !take_nil, !app_nil_r.
  - destruct (handleEvent_cases e event Hm Hc) as (e1 & Hstep & Hm1 & Hc1 & Hbm & Hbc).
    destruct (IH e1 Hm1 Hc1) as (e' & Hall & Hm' & Hc').
    exists e'. simpl. rewrite Hstep. split; [done|].
    rewrite Hm', Hc', (offered_offered _ _ _ _ Hbm), (offered_offered _ _ _ _ Hbc).
    by destruct (client.is_message event), (client.is_channel event).
Qed.

Lemma handler_keeps_oldest_hundred_witness :
  exists e',
    client.handleAll client.NewEventHandler
      [a_message "e1" "server:1"; a_message "e2" "server:1"] = Some e'
    /\ client.buffer (client.MessageChan e')
       = client.offered (client.MessageChan client.NewEventHandler)
           (map client.message_of
              (List.filter client.is_message
                 [a_message "e1" "server:1"; a_message "e2" "server:1"]))
    /\ client.buffer (client.ChannelChan e')
       = client.offered (client.ChannelChan client.NewEventHandler)
           (map client.channel_of
              (List.filter client.is_channel
                 [a_message "e1" "server:1"; a_message "e2" "server:1"])).
Proof.
  apply (handler_keeps_oldest_hundred client.NewEventHandler
           [a_message "e1" "server:1"; a_message "e2" "server:1"]); reflexivity.
Defined.

(** X22.  What the client subscribes to: the request its handler sends
    for a server asks for no replay, and the subscriber registered for
    it is sent an event exactly when the type of the event is one of
    [message.sent], [channel.created] and [channel.updated] and its
    scope is [server:] followed by the server identifier; an event
    whose scope starts with [channel:] is never sent to it. *)
Theorem client_subscription (serverID : string) (st : nat) (event : pb.Event) (w : World) :
  subscribe_replay (client.SubscribeRequest_for serverID) st w = (w, inr tt)
  /\ (eventMatchesSubscriber event
        (subscriber_of (client.SubscribeRequest_for serverID) st) = true
      <-> pb.EventType event ∈ ["message.sent"; "channel.created"; "channel.updated"]
          /\ pb.Scope event = "server:" +:+ serverID)
  /\ (forall c, pb.Scope event = "channel:" +:+ c ->
        eventMatchesSubscriber event
          (subscriber_of (client.SubscribeRequest_for serverID) st) = false).
Proof.
  assert (eventMatchesSubscriber event
            (subscriber_of (client.SubscribeRequest_for serverID) st) = true
          <-> pb.EventType event ∈ ["message.sent"; "channel.created"; "channel.updated"]
              /\ pb.Scope event = "server:" +:+ serverID) as Hiff.
  { rewrite eventMatchesSubscriber_spec. simpl. split.
    - intros ([?|Ht] & [?|Hs] & _); try done.
      split; [done|]. by apply list_elem_of_singleton in Hs.
    - intros [Ht Hs]. split; [by right|]. split.
      + right. rewrite Hs. apply list_elem_of_here.
      + intros k v Hkv. by rewrite lookup_empty in Hkv. }
  split; [done|]. split; [exact Hiff|].
  intros c Hc.
  destruct (eventMatchesSubscriber event _); [|done].
  destruct (proj1 Hiff eq_refl) as [_ Hs]. rewrite Hc in Hs. discriminate.
Qed.

(** * The configuration service as a publisher *)

Lemma singleton_metadata (key value : string) :
  bool_decide (({[ key := value ]} : gmap string string) = ∅) = false.
Proof. apply bool_decide_eq_false. apply map_non_empty_singleton. Qed.

(** X23.  What the configuration service publishes: without an event
    service both helpers return no identifier and no error and change
    nothing.  With one, and an identifier made from the clock that is
    not stored yet, they return that identifier and no error, and the
    table gains one row with the type [config.updated] (or
    [config.deleted]), the scope and the actor given, the key as the
    only metadata, and the latest sequence of the scope plus one: the
    clock reading the caller puts in the sequence field is not stored. *)
Theorem config_events_are_sequenced {ConfigValue : Type} (nanos stamp unix now : Z)
    (scope key actor note : string) (old new : option ConfigValue) (w : World) (m : Z) :
  database.has_event_id ("config-updated-" +:+ pretty nanos) (events w) = false ->
  database.has_event_id ("config-deleted-" +:+ pretty nanos) (events w) = false ->
  latest_sequence scope (events w) m ->
  int64_min <= m < int64_max ->
  let updated := publishConfigUpdatedEvent true nanos stamp unix now scope key
                   old new actor note w in
  let deleted := publishConfigDeletedEvent true nanos stamp unix now scope key
                   old actor note w in
  publishConfigUpdatedEvent false nanos stamp unix now scope key old new actor note w
  = (w, (EmptyString, None))
  /\ publishConfigDeletedEvent false nanos stamp unix now scope key old actor note w
     = (w, (EmptyString, None))
  /\ updated.2 = ("config-updated-" +:+ pretty nanos, None)
  /\ events updated.1
     = events w ++ [ {| database.EventID := "config-updated-" +:+ pretty nanos;
                        database.EventType := "config.updated";
                        database.Scope := scope;
                        database.ActorID := actor;
                        database.Timestamp := stamp;
                        database.Payload := None;
                        database.Metadata := Some {[ "config_key" := key ]};
                        database.Sequence := m + 1 |} ]
  /\ deleted.2 = ("config-deleted-" +:+ pretty nanos, None)
  /\ events deleted.1
     = events w ++ [ {| database.EventID := "config-deleted-" +:+ pretty nanos;
                        database.EventType := "config.deleted";
                        database.Scope := scope;
                        database.ActorID := actor;
                        database.Timestamp := stamp;
                        database.Payload := None;
                        database.Metadata := Some {[ "config_key" := key ]};
                        database.Sequence := m + 1 |} ].
Proof.
  intros Hup Hdel Hm Hrange updated deleted.
  split; [done|]. split; [done|].
  assert (forall id ty,
            String.eqb id EmptyString = false ->
            database.has_event_id id (events w) = false ->
            let event := {| pb.EventId := id; pb.EventType := ty; pb.Scope := scope;
                            pb.ActorId := actor; pb.Timestamp := Some stamp;
                            pb.Payload := None;
                            pb.Metadata := {[ "config_key" := key ]};
                            pb.Sequence := unix |} in
            let out := Publish now {| pb.PublishRequest_Event := Some event |} w in
            (exists resp, out.2 = inr resp)
            /\ events out.1
               = events w ++ [ {| database.EventID := id; database.EventType := ty;
                                  database.Scope := scope; database.ActorID := actor;
                                  database.Timestamp := stamp; database.Payload := None;
                                  database.Metadata := Some {[ "config_key" := key ]};
                                  database.Sequence := m + 1 |} ]) as Hpub.
  { intros id ty Hnonempty Hnew event out.
    assert (stored_id now event = id) as Hid.
    { unfold stored_id, event. simpl. by rewrite Hnonempty. }
    destruct (Publish_outcome now {| pb.PublishRequest_Event := Some event |} w)
      as [[? _]|[(ev & Hreq & Hdup & _)|(ev & Hreq & _ & Hres & Hev & _)]]; try done.
    - injection Hreq as <-. rewrite Hid in Hdup. congruence.
    - injection Hreq as <-. split; [eauto|]. unfold out. rewrite Hev. do 2 f_equal.
      pose proof (published_sequence now event w m Hm Hrange) as Hseq.
      unfold published in Hseq. simpl in Hseq.
      unfold database.row_of, CreateEventParams_of, published, event. simpl.
      rewrite Hnonempty, Hseq.
      by rewrite singleton_metadata. }
  destruct (Hpub ("config-updated-" +:+ pretty nanos) "config.updated" eq_refl Hup)
    as [[r1 Hr1] Hev1].
  destruct (Hpub ("config-deleted-" +:+ pretty nanos) "config.deleted" eq_refl Hdel)
    as [[r2 Hr2] Hev2].
  unfold updated, deleted, publishConfigUpdatedEvent, publishConfigDeletedEvent.
  cbn [negb]. cbv zeta in Hr1, Hev1, Hr2, Hev2.
  destruct (Publish now {| pb.PublishRequest_Event := Some
              {| pb.EventId := "config-updated-" +:+ pretty nanos;
                 pb.EventType := "config.updated"; pb.Scope := scope;
                 pb.ActorId := actor; pb.Timestamp := Some stamp; pb.Payload := None;
                 pb.Metadata := {[ "config_key" := key ]}; pb.Sequence := unix |} |} w)
    as [w1 [err1|resp1]]; simpl in Hr1, Hev1; [done|].
  destruct (Publish now {| pb.PublishRequest_Event := Some
              {| pb.EventId := "config-deleted-" +:+ pretty nanos;
                 pb.EventType := "config.deleted"; pb.Scope := scope;
                 pb.ActorId := actor; pb.Timestamp := Some stamp; pb.Payload := None;
                 pb.Metadata := {[ "config_key" := key ]}; pb.Sequence := unix |} |} w)
    as [w2 [err2|resp2]]; simpl in Hr2, Hev2; [done|].
  done.
Qed.

Lemma config_events_are_sequenced_witness :
  (publishConfigUpdatedEvent (ConfigValue:=string) true 5 1700000000 1700000001 6
     "channel:1" "topic" None None "system" EmptyString busy_world).2
  = ("config-updated-5", None).
Proof.
  refine (proj1 (proj2 (proj2 (config_events_are_sequenced (ConfigValue:=string)
            5 1700000000 1700000001 6 "channel:1" "topic" "system" EmptyString
            None None busy_world 2 _ _ _ _)))).
  - reflexivity.
  - reflexivity.
  - exact (latest_sequence_max "channel:1" (events busy_world)).
  - unfold int64_min, int64_max. lia.
Defined.

(** * What Publish does to the streams *)

(** X24.  Publish never takes back what a stream has sent and never
    touches the registry: after any call, each stream has sent what it
    had sent before, possibly followed by more, a stream fails after
    the call exactly if it failed before, and the registry is the
    same. *)
Theorem Publish_extends_streams (now : Z) (req : pb.PublishRequest) (w : World)
    (st : nat) :
  receives w st `prefix_of` receives (Publish now req w).1 st
  /\ stream_error (Publish now req w).1 st = stream_error w st
  /\ subscribers (Publish now req w).1 = subscribers w.
Proof.
  destruct (pb.PublishRequest_Event req) as [event|] eqn:Hreq;
    [|by rewrite (Publish_missing _ _ _ Hreq)].
  destruct (database.has_event_id (stored_id now event) (events w)) eqn:Hid;
    [by rewrite (Publish_duplicate _ _ _ _ Hreq Hid)|].
  rewrite (Publish_fresh _ _ _ _ Hreq Hid). cbn [fst].
  set (e := published now event w).
  set (w1 := with_store _ StmtCreateEvent (after_read w)).
  split; [|split].
  - unfold receives, broadcastEvent. rewrite broadcastOver_streams.
    change (streams w1) with (streams w).
    destruct (streams w !! st) as [s|]; [|done]. simpl.
    unfold stream_after. destruct (send_error s); [done|]. simpl.
    by apply prefix_app_r.
  - unfold broadcastEvent. by rewrite broadcastOver_stream_error.
  - by destruct (broadcastEvent_frame e w1) as (_ & _ & ->).
Qed.
